(** * Regex generator: pattern generators and category registry

    A shallow embedding of [src/model/regexPatterns.js]: the five pattern
    generators, the [RegexCategories] registry, and a model of the part of
    the ECMAScript regular-expression engine that the generated patterns
    exercise (pattern grammar, backtracking matcher, [RegExp.prototype.test]).

    Conventions.
    - A JavaScript string is a [string], one [ascii] per code unit; every
      pattern in the source is ASCII.  A JavaScript source literal ['\\d']
      denotes the two characters backslash, d; Rocq strings have no
      backslash escapes, so the same value is written ["\d"] here.
    - An options object is a finite map from property names to values;
      the entry at [__proto__] is the object's prototype, as an object
      literal or an assignment sets it.  [Object.prototype] itself is taken
      to carry none of the criterion ids.
    - A call that raises returns [Throw]; a call that returns, [Normal]. *)

From Stdlib Require Import Ascii String List Bool Arith Lia DecimalString.
From stdpp Require Import gmap strings list fin_maps.

Local Open Scope string_scope.

(** ** JavaScript values reaching the generators *)

(** Property values of an options record.  Numbers are kept as integers:
    the generators only ever convert a value to a boolean.  An object is
    the map of its own properties. *)
#[warnings="-register-all"]
Inductive Value :=
| VUndefined
| VNull
| VBool (b : bool)
| VNum (n : Z)
| VStr (s : string)
| VObj (props : gmap string Value).

(** ECMAScript [ToBoolean]. *)
Definition ToBoolean (v : Value) : bool :=
  match v with
  | VUndefined | VNull => false
  | VBool b => b
  | VNum n => negb (n =? 0)%Z
  | VStr s => negb (String.eqb s "")
  | VObj _ => true
  end.

Abbreviation Options := (gmap string Value).

(** The actual argument of a generator call: omitted (or [undefined]),
    [null], or an options record. *)
Inductive OptionsArg :=
| ArgUndefined
| ArgNull
| ArgObject (o : Options).

Inductive Error := TypeError.

Inductive Completion (A : Type) :=
| Normal (a : A)
| Throw (e : Error).
Arguments Normal {A} a.
Arguments Throw {A} e.

Definition bind {A B} (c : Completion A) (f : A -> Completion B) : Completion B :=
  match c with
  | Normal a => f a
  | Throw e => Throw e
  end.

Notation "'let*' x ':=' c 'in' k" := (bind c (fun x => k))
  (at level 10, x name, c at level 100, k at level 200).

(** A parameter declared [options = {}]: the default replaces a missing
    argument only. *)
Definition defaultParam (a : OptionsArg) : OptionsArg :=
  match a with
  | ArgUndefined => ArgObject ∅
  | _ => a
  end.

(** How many objects deep a value's properties go. *)
Fixpoint depth (v : Value) : nat :=
  match v with
  | VObj p => S (map_fold (fun _ x acc => Nat.max (depth x) acc) 0 p)
  | _ => 0
  end.

(** [OrdinaryGet]: the object's own property, else the same read on its
    prototype; a prototype that is [null], or the untouched
    [Object.prototype] left in place when [__proto__] was given something
    that is not an object, ends the chain with [undefined].  [fuel] bounds
    the length of the chain. *)
Fixpoint getValueFuel (fuel : nat) (v : Value) (k : string) : Value :=
  match v with
  | VObj p =>
      match p !! k with
      | Some x => x
      | None =>
          match fuel with
          | 0 => VUndefined
          | S fuel =>
              match p !! "__proto__" with
              | Some proto => getValueFuel fuel proto k
              | None => VUndefined
              end
          end
      end
  | _ => VUndefined
  end.

(** The chain of a value is no longer than its depth (lemma
    [getValue_unfold]). *)
Definition getValue (v : Value) (k : string) : Value :=
  getValueFuel (depth v) v k.

(** [o.k] on an options record. *)
Definition readProp (o : Options) (k : string) : Value :=
  getValue (VObj o) k.

(** Property read [options.k]: a [TypeError] on [null]; on a record, its
    own property or the one it inherits, [undefined] when there is none. *)
Definition getProp (a : OptionsArg) (k : string) : Completion Value :=
  match a with
  | ArgObject o => Normal (readProp o k)
  | ArgUndefined | ArgNull => Throw TypeError
  end.

(** ** Generators *)

Record GeneratedPattern := { pattern : string; flags : string }.

(** The template literal [`^${p}$`]. *)
Definition anchor (p : string) : string := "^" +:+ p +:+ "$".

Definition generateEmailRegex (arg : OptionsArg) : Completion GeneratedPattern :=
  let options := defaultParam arg in
  let pattern := "[a-zA-Z0-9._%+-]+@[a-zA-Z0-9.-]+\.[a-zA-Z]{2,63}" in
  let flags := "i" in
  let* v := getProp options "allowSubdomains" in
  let pattern :=
    if ToBoolean v
    then "[a-zA-Z0-9._%+-]+@[a-zA-Z0-9.-]+\.[a-zA-Z]{2,63}(\.[a-zA-Z]{2})?"
    else pattern in
  let pattern := anchor pattern in
  Normal {| pattern := pattern; flags := flags |}.

Definition generateCPFRegex (arg : OptionsArg) : Completion GeneratedPattern :=
  let options := defaultParam arg in
  let flags := "" in
  let* v := getProp options "allowOptionalSymbols" in
  let pattern :=
    if ToBoolean v
    then "\d{3}\.?\d{3}\.?\d{3}-?\d{2}"
    else "\d{3}\.\d{3}\.\d{3}-\d{2}" in
  let pattern := anchor pattern in
  Normal {| pattern := pattern; flags := flags |}.

Definition generateCEPRegex (arg : OptionsArg) : Completion GeneratedPattern :=
  let options := defaultParam arg in
  let flags := "" in
  let* v := getProp options "allowOptionalSymbols" in
  let pattern :=
    if ToBoolean v
    then "\d{5}-?\d{3}"
    else "\d{5}-\d{3}" in
  let pattern := anchor pattern in
  Normal {| pattern := pattern; flags := flags |}.

(** The UUID generator declares no parameter: any argument is ignored. *)
Definition generateUUIDRegex (_ : OptionsArg) : Completion GeneratedPattern :=
  let flags := "i" in
  let uuidPattern :=
    "[0-9a-f]{8}-[0-9a-f]{4}-4[0-9a-f]{3}-[89ab][0-9a-f]{3}-[0-9a-f]{12}" in
  let pattern := uuidPattern in
  let pattern := anchor pattern in
  Normal {| pattern := pattern; flags := flags |}.

Definition generateIPv4Regex (arg : OptionsArg) : Completion GeneratedPattern :=
  let options := defaultParam arg in
  let octet := "(?:25[0-5]|2[0-4]\d|1\d{2}|[1-9]?\d)" in
  let pattern := octet +:+ "\." +:+ octet +:+ "\." +:+ octet +:+ "\." +:+ octet in
  let* v := getProp options "allowCIDR" in
  let pattern :=
    if ToBoolean v
    then pattern +:+ "(?:/(?:[0-9]|[12][0-9]|3[0-2]))?"
    else pattern in
  let pattern := anchor pattern in
  let flags := "" in
  Normal {| pattern := pattern; flags := flags |}.

(** ** Registry *)

Inductive ControlType := checkbox.

Record CriterionDefinition := {
  id : string;
  label : string;
  type : ControlType;
  defaultValue : Value
}.

Record CategoryDescriptor := {
  name : string;
  generator : OptionsArg -> Completion GeneratedPattern;
  criteria : list CriterionDefinition
}.

Definition dq : string := String (ascii_of_nat 34) EmptyString.

(** [RegexCategories], in insertion order. *)
Definition RegexCategories : list (string * CategoryDescriptor) :=
  [ ("email",
     {| name := "E-mail";
        generator := generateEmailRegex;
        criteria :=
          [ {| id := "allowSubdomains";
               label := "Permitir subdomínios (.ex: " +:+ dq +:+ ".com" +:+ dq
                        +:+ " , " +:+ dq +:+ ".com.br" +:+ dq +:+ ")";
               type := checkbox;
               defaultValue := VBool false |} ] |});
    ("cpf",
     {| name := "CPF (Formato)";
        generator := generateCPFRegex;
        criteria :=
          [ {| id := "allowOptionalSymbols";
               label := "Permitir símbolos opcionais";
               type := checkbox;
               defaultValue := VBool true |} ] |});
    ("cep",
     {| name := "CEP";
        generator := generateCEPRegex;
        criteria :=
          [ {| id := "allowOptionalSymbols";
               label := "Permitir símbolos opcionais";
               type := checkbox;
               defaultValue := VBool true |} ] |});
    ("uuid",
     {| name := "UUID v4";
        generator := generateUUIDRegex;
        criteria := [] |});
    ("ipv4",
     {| name := "IPv4 (Endereço)";
        generator := generateIPv4Regex;
        criteria :=
          [ {| id := "allowCIDR";
               label := "Permitir sufixo CIDR (ex: /24)";
               type := checkbox;
               defaultValue := VBool false |} ] |}) ].

(** The registry's own entry for [key]: what [RegexCategories[key]] gives
    for a key the object literal holds.  The members every object inherits
    from [Object.prototype] ([constructor], [toString], ...) are not
    categories and are no entries: [None] says that the registry has no
    entry of its own under [key]. *)
Definition lookupCategory (key : string) : option CategoryDescriptor :=
  snd <$> List.find (fun kd => String.eqb (fst kd) key) RegexCategories.

(** The record holding every declared criterion of a category at its
    declared default. *)
Definition declaredDefaults (d : CategoryDescriptor) : Options :=
  fold_right (fun c o => <[id c := defaultValue c]> o) ∅ (criteria d).

(** The ids a category declares. *)
Definition declaredIds (d : CategoryDescriptor) : list string :=
  map id (criteria d).

(** ** Regular expressions: syntax

    The fragment of the ECMAScript pattern grammar (non-unicode mode,
    without the Annex B extensions) that the generators emit, and a little
    more.  Anything else is reported as [None]. *)

(** A member of a character class. *)
Inductive ClassAtom :=
| CChar (c : ascii)
| CRange (lo hi : ascii)
| CDigit      (* \d *)
| CNotDigit   (* \D *)
| CWord       (* \w *)
| CNotWord.   (* \W *)

(** A character set with its [invert] flag ([[^...]]). *)
Record CharSet := { invert : bool; atoms : list ClassAtom }.

Inductive Regex :=
| REmpty
| RChar (cs : CharSet)
| RStart                       (* ^ *)
| REnd                         (* $ *)
| RSeq (r1 r2 : Regex)
| RAlt (r1 r2 : Regex)
| RQuant (mn : nat) (mx : option nat) (greedy : bool) (r : Regex)
| RGroup (capture : bool) (r : Regex).

Definition single (c : ascii) : Regex :=
  RChar {| invert := false; atoms := [CChar c] |}.

Definition classEscape (a : ClassAtom) : Regex :=
  RChar {| invert := false; atoms := [a] |}.

(** [.]: every character but the line terminators. *)
Definition dot : Regex :=
  RChar {| invert := true; atoms := [CChar "010"%char; CChar "013"%char] |}.

Definition isDigit (c : ascii) : bool :=
  ((48 <=? nat_of_ascii c) && (nat_of_ascii c <=? 57))%nat.

Definition isUpper (c : ascii) : bool :=
  ((65 <=? nat_of_ascii c) && (nat_of_ascii c <=? 90))%nat.

Definition isLower (c : ascii) : bool :=
  ((97 <=? nat_of_ascii c) && (nat_of_ascii c <=? 122))%nat.

Definition isWordChar (c : ascii) : bool :=
  isDigit c || isUpper c || isLower c || Ascii.eqb c "_".

Definition isSyntaxCharacter (c : ascii) : bool :=
  existsb (Ascii.eqb c) (list_ascii_of_string "^$\.*+?()[]{}|").

(** Characters that [IdentityEscape] excludes; escapes of letters and
    digits other than the four class escapes below are not modelled. *)
Definition isIdContinue (c : ascii) : bool :=
  isWordChar c || (128 <=? nat_of_ascii c)%nat.

(** ** Regular expressions: parser *)

Fixpoint parseDigits (acc : nat) (s : list ascii) : nat * list ascii :=
  match s with
  | c :: rest =>
      if isDigit c then parseDigits (10 * acc + (nat_of_ascii c - 48)) rest
      else (acc, s)
  | [] => (acc, s)
  end.

Definition parseDecimal (s : list ascii) : option (nat * list ascii) :=
  match s with
  | c :: _ => if isDigit c then Some (parseDigits 0 s) else None
  | [] => None
  end.

(** [QuantifierPrefix]: the bounds, when the input starts with one. *)
Definition parseQuantifierPrefix (s : list ascii)
  : option (option (nat * option nat) * list ascii) :=
  match s with
  | "*"%char :: rest => Some (Some (0, None), rest)
  | "+"%char :: rest => Some (Some (1, None), rest)
  | "?"%char :: rest => Some (Some (0, Some 1), rest)
  | "{"%char :: rest =>
      '(lo, rest) ← parseDecimal rest;
      match rest with
      | "}"%char :: rest => Some (Some (lo, Some lo), rest)
      | ","%char :: "}"%char :: rest => Some (Some (lo, None), rest)
      | ","%char :: rest =>
          '(hi, rest) ← parseDecimal rest;
          match rest with
          | "}"%char :: rest =>
              if (hi <? lo)%nat then None else Some (Some (lo, Some hi), rest)
          | _ => None
          end
      | _ => None
      end
  | _ => Some (None, s)
  end.

(** An atom followed by its optional quantifier. *)
Definition parseQuantifier (a : Regex) (s : list ascii)
  : option (Regex * list ascii) :=
  '(q, rest) ← parseQuantifierPrefix s;
  match q with
  | None => Some (a, rest)
  | Some (lo, hi) =>
      match rest with
      | "?"%char :: rest => Some (RQuant lo hi false a, rest)
      | _ => Some (RQuant lo hi true a, rest)
      end
  end.

(** [\x] outside and inside a class. *)
Definition parseEscape (c : ascii) : option ClassAtom :=
  match c with
  | "d"%char => Some CDigit
  | "D"%char => Some CNotDigit
  | "w"%char => Some CWord
  | "W"%char => Some CNotWord
  | _ => if isIdContinue c then None else Some (CChar c)
  end.

(** One [ClassAtom]; [None] at the closing bracket. *)
Definition parseClassAtom (s : list ascii) : option (ClassAtom * list ascii) :=
  match s with
  | "\"%char :: c :: rest => a ← parseEscape c; Some (a, rest)
  | "]"%char :: _ => None
  | c :: rest => Some (CChar c, rest)
  | [] => None
  end.

(** [ClassRanges], up to and including the closing bracket. *)
Fixpoint parseClassRanges (fuel : nat) (s : list ascii)
  : option (list ClassAtom * list ascii) :=
  match fuel with
  | 0 => None
  | S fuel =>
      match s with
      | "]"%char :: rest => Some ([], rest)
      | _ =>
          '(a, rest) ← parseClassAtom s;
          match rest with
          | "-"%char :: "]"%char :: rest' => Some ([a; CChar "-"], rest')
          | "-"%char :: rest' =>
              '(b, rest'') ← parseClassAtom rest';
              match a, b with
              | CChar lo, CChar hi =>
                  if (nat_of_ascii hi <? nat_of_ascii lo)%nat then None
                  else '(l, r) ← parseClassRanges fuel rest'';
                       Some (CRange lo hi :: l, r)
              | _, _ => None
              end
          | _ => '(l, r) ← parseClassRanges fuel rest; Some (a :: l, r)
          end
      end
  end.

Definition parseCharacterClass (s : list ascii) : option (Regex * list ascii) :=
  match s with
  | "^"%char :: rest =>
      '(l, r) ← parseClassRanges (S (length rest)) rest;
      Some (RChar {| invert := true; atoms := l |}, r)
  | _ =>
      '(l, r) ← parseClassRanges (S (length s)) s;
      Some (RChar {| invert := false; atoms := l |}, r)
  end.

Fixpoint parseDisjunction (fuel : nat) (s : list ascii) {struct fuel}
  : option (Regex * list ascii) :=
  match fuel with
  | 0 => None
  | S fuel =>
      '(a, rest) ← parseAlternative fuel s;
      match rest with
      | "|"%char :: rest =>
          '(d, rest) ← parseDisjunction fuel rest; Some (RAlt a d, rest)
      | _ => Some (a, rest)
      end
  end
with parseAlternative (fuel : nat) (s : list ascii) {struct fuel}
  : option (Regex * list ascii) :=
  match fuel with
  | 0 => None
  | S fuel =>
      match s with
      | [] | "|"%char :: _ | ")"%char :: _ => Some (REmpty, s)
      | _ =>
          '(t, rest) ← parseTerm fuel s;
          '(a, rest) ← parseAlternative fuel rest;
          Some (RSeq t a, rest)
      end
  end
with parseTerm (fuel : nat) (s : list ascii) {struct fuel}
  : option (Regex * list ascii) :=
  match fuel with
  | 0 => None
  | S fuel =>
      match s with
      | "^"%char :: rest => Some (RStart, rest)
      | "$"%char :: rest => Some (REnd, rest)
      | _ => '(a, rest) ← parseAtom fuel s; parseQuantifier a rest
      end
  end
with parseAtom (fuel : nat) (s : list ascii) {struct fuel}
  : option (Regex * list ascii) :=
  match fuel with
  | 0 => None
  | S fuel =>
      match s with
      | "("%char :: "?"%char :: ":"%char :: rest =>
          '(d, rest) ← parseDisjunction fuel rest;
          match rest with
          | ")"%char :: rest => Some (RGroup false d, rest)
          | _ => None
          end
      | "("%char :: "?"%char :: _ => None
      | "("%char :: rest =>
          '(d, rest) ← parseDisjunction fuel rest;
          match rest with
          | ")"%char :: rest => Some (RGroup true d, rest)
          | _ => None
          end
      | "["%char :: rest => parseCharacterClass rest
      | "."%char :: rest => Some (dot, rest)
      | "\"%char :: c :: rest => a ← parseEscape c; Some (classEscape a, rest)
      | c :: rest => if isSyntaxCharacter c then None else Some (single c, rest)
      | [] => None
      end
  end.

(** [Pattern]: a disjunction spanning the whole source. *)
Definition parsePattern (p : string) : option Regex :=
  let s := list_ascii_of_string p in
  '(r, rest) ← parseDisjunction (4 * length s + 4) s;
  match rest with
  | [] => Some r
  | _ => None
  end.

(** The flags this model knows: none, or [i]. *)
Definition parseFlags (f : string) : option bool :=
  if String.eqb f "" then Some false
  else if String.eqb f "i" then Some true
  else None.

(** ** Regular expressions: matching *)

Definition toUpper (c : ascii) : ascii :=
  if isLower c then ascii_of_nat (nat_of_ascii c - 32) else c.

Definition toLower (c : ascii) : ascii :=
  if isUpper c then ascii_of_nat (nat_of_ascii c + 32) else c.

Definition atomMem (a : ClassAtom) (c : ascii) : bool :=
  match a with
  | CChar x => Ascii.eqb x c
  | CRange lo hi =>
      ((nat_of_ascii lo <=? nat_of_ascii c)
       && (nat_of_ascii c <=? nat_of_ascii hi))%nat
  | CDigit => isDigit c
  | CNotDigit => negb (isDigit c)
  | CWord => isWordChar c
  | CNotWord => negb (isWordChar c)
  end.

(** [CharacterSetMatcher]: with [ignoreCase] a character is found when a
    member of the set has the same canonical form, that is when the set
    holds its upper-case or its lower-case form.  [Canonicalize] never maps
    a character outside ASCII to an ASCII one, so for the ASCII sets of
    these patterns leaving such characters alone changes nothing. *)
Definition charSetMatches (ignoreCase : bool) (cs : CharSet) (c : ascii) : bool :=
  let found :=
    if ignoreCase
    then existsb (fun a => atomMem a (toUpper c) || atomMem a (toLower c)) (atoms cs)
    else existsb (fun a => atomMem a c) (atoms cs) in
  xorb (invert cs) found.

(** A matcher runs from a position (the index and what is left of the
    input) and hands the end of its match to a continuation. *)
Definition Continuation := nat -> list ascii -> bool.
Definition Matcher := nat -> list ascii -> Continuation -> bool.

(** [RepeatMatcher].  An iteration that matched the empty string once the
    minimum is reached is abandoned, so every step uses up the minimum or
    a character: [fuel] above [mn + length inp] is never exhausted. *)
Fixpoint repeatMatcher (m : Matcher) (fuel mn : nat) (mx : option nat)
    (greedy : bool) (pos : nat) (inp : list ascii) (c : Continuation) : bool :=
  match fuel with
  | 0 => false
  | S fuel =>
      match mx with
      | Some 0 => c pos inp
      | _ =>
          let d : Continuation := fun pos' inp' =>
            if (mn =? 0)%nat && (pos' =? pos)%nat then false
            else repeatMatcher m fuel (pred mn) (pred <$> mx) greedy pos' inp' c in
          if negb (mn =? 0)%nat then m pos inp d
          else if greedy then (if m pos inp d then true else c pos inp)
          else (if c pos inp then true else m pos inp d)
      end
  end.

Fixpoint compileMatcher (ignoreCase : bool) (r : Regex) : Matcher :=
  match r with
  | REmpty => fun pos inp c => c pos inp
  | RChar cs => fun pos inp c =>
      match inp with
      | ch :: rest => if charSetMatches ignoreCase cs ch then c (S pos) rest else false
      | [] => false
      end
  | RStart => fun pos inp c => if (pos =? 0)%nat then c pos inp else false
  | REnd => fun pos inp c =>
      match inp with
      | [] => c pos inp
      | _ => false
      end
  | RSeq r1 r2 => fun pos inp c =>
      compileMatcher ignoreCase r1 pos inp
        (fun pos' inp' => compileMatcher ignoreCase r2 pos' inp' c)
  | RAlt r1 r2 => fun pos inp c =>
      if compileMatcher ignoreCase r1 pos inp c then true
      else compileMatcher ignoreCase r2 pos inp c
  | RQuant mn mx greedy r' => fun pos inp c =>
      repeatMatcher (compileMatcher ignoreCase r') (S (mn + length inp))
        mn mx greedy pos inp c
  | RGroup _ r' => compileMatcher ignoreCase r'
  end.

(** [RegExp.prototype.test] without the [g] and [y] flags: a match is
    looked for from every index, the first one onwards. *)
Definition regExpTest (ignoreCase : bool) (r : Regex) (s : list ascii) : bool :=
  existsb (fun i => compileMatcher ignoreCase r i (drop i s) (fun _ _ => true))
          (seq 0 (S (length s))).

(** [new RegExp(pattern, flags).test(s)]; [None] when the pattern or the
    flags are outside the modelled fragment. *)
Definition test (g : GeneratedPattern) (s : string) : option bool :=
  r ← parsePattern (pattern g);
  i ← parseFlags (flags g);
  Some (regExpTest i r (list_ascii_of_string s)).

(** The same on the result of a generator call. *)
Definition testGenerated (c : Completion GeneratedPattern) (s : string) : option bool :=
  match c with
  | Normal g => test g s
  | Throw _ => None
  end.


(** ** Regular expressions: what a match is

    [Matches i r pos w rest]: from index [pos], with [w ++ rest] left of the
    input, [r] can match exactly [w].  The anchors look at the position:
    [^] needs index 0 and [$] needs nothing left. *)

Local Open Scope list_scope.

Section Semantics.
Variable ignoreCase : bool.

Inductive Matches : Regex -> nat -> list ascii -> list ascii -> Prop :=
| MEmpty pos rest :
    Matches REmpty pos [] rest
| MChar cs ch pos rest :
    charSetMatches ignoreCase cs ch = true ->
    Matches (RChar cs) pos [ch] rest
| MStart rest :
    Matches RStart 0 [] rest
| MEnd pos :
    Matches REnd pos [] []
| MSeq r1 r2 pos w1 w2 rest :
    Matches r1 pos w1 (w2 ++ rest) ->
    Matches r2 (pos + length w1) w2 rest ->
    Matches (RSeq r1 r2) pos (w1 ++ w2) rest
| MAltL r1 r2 pos w rest :
    Matches r1 pos w rest ->
    Matches (RAlt r1 r2) pos w rest
| MAltR r1 r2 pos w rest :
    Matches r2 pos w rest ->
    Matches (RAlt r1 r2) pos w rest
| MQuantMax mn g r pos rest :
    Matches (RQuant mn (Some 0) g r) pos [] rest
| MQuantMin mx g r pos rest :
    Matches (RQuant 0 mx g r) pos [] rest
| MQuantStep mn mx g r pos w1 w2 rest :
    mx <> Some 0 ->
    Matches r pos w1 (w2 ++ rest) ->
    Matches (RQuant (pred mn) (pred <$> mx) g r) (pos + length w1) w2 rest ->
    Matches (RQuant mn mx g r) pos (w1 ++ w2) rest
| MGroup cap r pos w rest :
    Matches r pos w rest ->
    Matches (RGroup cap r) pos w rest.

(** Iterations of [r] in which, once the minimum is reached, every
    iteration takes at least one character. *)
Inductive Productive (r : Regex)
  : nat -> option nat -> nat -> list ascii -> list ascii -> Prop :=
| PMax mn pos rest :
    Productive r mn (Some 0) pos [] rest
| PMin mx pos rest :
    Productive r 0 mx pos [] rest
| PStep mn mx pos w1 w2 rest :
    mx <> Some 0 ->
    Matches r pos w1 (w2 ++ rest) ->
    (mn = 0 -> w1 <> []) ->
    Productive r (pred mn) (pred <$> mx) (pos + length w1) w2 rest ->
    Productive r mn mx pos (w1 ++ w2) rest.
End Semantics.

(** [a] is at most [b], [None] standing for no bound. *)
Definition leMax (a b : option nat) : Prop :=
  match a, b with
  | _, None => True
  | None, Some _ => False
  | Some x, Some y => x <= y
  end.

(** [n] is within the upper bound [mx]. *)
Definition withinMax (n : nat) (mx : option nat) : Prop :=
  match mx with
  | Some k => n <= k
  | None => True
  end.

(** A match of [r] can only start at index 0. *)
Fixpoint anchoredStart (r : Regex) : bool :=
  match r with
  | RStart => true
  | RSeq r1 r2 => anchoredStart r1 || anchoredStart r2
  | RAlt r1 r2 => anchoredStart r1 && anchoredStart r2
  | RQuant mn mx _ r' =>
      negb (mn =? 0)%nat && negb (bool_decide (mx = Some 0)) && anchoredStart r'
  | RGroup _ r' => anchoredStart r'
  | REmpty | RChar _ | REnd => false
  end.

(** A match of [r] can only stop at the end of the input. *)
Fixpoint anchoredEnd (r : Regex) : bool :=
  match r with
  | REnd => true
  | RSeq r1 r2 => anchoredEnd r1 || anchoredEnd r2
  | RAlt r1 r2 => anchoredEnd r1 && anchoredEnd r2
  | RQuant mn mx _ r' =>
      negb (mn =? 0)%nat && negb (bool_decide (mx = Some 0)) && anchoredEnd r'
  | RGroup _ r' => anchoredEnd r'
  | REmpty | RChar _ | RStart => false
  end.

#[global] Instance ClassAtom_eq_dec : EqDecision ClassAtom.
Proof. solve_decision. Defined.

#[global] Instance CharSet_eq_dec : EqDecision CharSet.
Proof. solve_decision. Defined.

#[global] Instance Regex_eq_dec : EqDecision Regex.
Proof. solve_decision. Defined.

(** A term that may match nothing at all: a quantifier with minimum 0. *)
Definition isOptional (r : Regex) : bool :=
  match r with
  | RQuant 0 _ _ _ => true
  | _ => false
  end.

(** [relaxes r r']: the expression [r'] is [r] with some terms made
    optional or with optional terms added, so every match of [r] is a
    match of [r'] (lemma [relaxes_sound]). *)
Fixpoint relaxes (r r' : Regex) {struct r'} : bool :=
  bool_decide (r = r') ||
  match r' with
  | RSeq a' b' =>
      (isOptional a' && relaxes r b') ||
      match r with
      | RSeq a b => relaxes a a' && relaxes b b'
      | _ => false
      end
  | RQuant 0 mx _ a' => negb (bool_decide (mx = Some 0)) && relaxes r a'
  | RGroup _ a' =>
      match r with
      | RGroup _ a => relaxes a a'
      | _ => false
      end
  | _ => false
  end.

(** The sets a fixed-length expression goes through, one per character:
    defined for sequences of sets repeated an exact number of times. *)
Fixpoint shape (r : Regex) : option (list CharSet) :=
  match r with
  | REmpty | RStart | REnd => Some []
  | RChar cs => Some [cs]
  | RSeq r1 r2 => s1 ← shape r1; s2 ← shape r2; Some (s1 ++ s2)
  | RQuant mn (Some mx) _ r' =>
      if (mn =? mx)%nat then s ← shape r'; Some (concat (replicate mn s))
      else None
  | RGroup _ r' => shape r'
  | RAlt _ _ | RQuant _ None _ _ => None
  end.

(** The record holding every declared criterion of a category set to
    [false]. *)
Definition declaredAllFalse (d : CategoryDescriptor) : Options :=
  fold_right (fun c o => <[id c := VBool false]> o) ∅ (criteria d).

(** A generated pattern that can only match an input as a whole: it is
    wrapped in [^] and [$], every match starts at index 0 and stops at the
    end, and [test] accepts [s] exactly when all of [s] is one match. *)
Definition wholeStringOnly (g : GeneratedPattern) : Prop :=
  exists body r i,
    pattern g = anchor body
    /\ parsePattern (pattern g) = Some r
    /\ parseFlags (flags g) = Some i
    /\ (forall pos w rest, Matches i r pos w rest -> pos = 0 /\ rest = [])
    /\ (forall s, test g s = Some true
                  <-> Matches i r 0 (list_ascii_of_string s) []).

(** ** Finite languages

    The words of an expression without anchors and without unbounded
    repetition, listed (lemma [words_correct]). *)

Definition allChars : list ascii := ascii_of_nat <$> seq 0 256.

(** Every concatenation of a word of [A] and a word of [B]. *)
Definition product (A B : list (list ascii)) : list (list ascii) :=
  a ← A; b ← B; [a ++ b].

(** Between [mn] and [mx] words of [A] in a row. *)
Fixpoint wordsRep (A : list (list ascii)) (mn mx : nat) : list (list ascii) :=
  match mx with
  | 0 => [[]]
  | S mx' =>
      (if (mn =? 0)%nat then [[]] else [])
      ++ product A (wordsRep A (pred mn) mx')
  end.

Fixpoint words (ignoreCase : bool) (r : Regex) : option (list (list ascii)) :=
  match r with
  | REmpty => Some [[]]
  | RChar cs =>
      Some ((fun c => [c])
              <$> filter (fun c => charSetMatches ignoreCase cs c = true) allChars)
  | RSeq a b =>
      A ← words ignoreCase a; B ← words ignoreCase b; Some (product A B)
  | RAlt a b =>
      A ← words ignoreCase a; B ← words ignoreCase b; Some (A ++ B)
  | RQuant mn (Some mx) _ a =>
      A ← words ignoreCase a; Some (wordsRep A mn mx)
  | RGroup _ a => words ignoreCase a
  | RStart | REnd | RQuant _ None _ _ => None
  end.

(** Decimal numerals, as [String(n)] prints a small natural number. *)
Definition decimal (n : nat) : list ascii :=
  list_ascii_of_string (NilZero.string_of_uint (Nat.to_uint n)).

(** The decimal numerals of [0] to [k]. *)
Definition decimalsUpTo (k : nat) : list (list ascii) :=
  decimal <$> seq 0 (S k).

(** [a.b.c.d] *)
Definition dottedQuad (a b c d : nat) : list ascii :=
  decimal a ++ "."%char :: decimal b ++ "."%char :: decimal c
    ++ "."%char :: decimal d.

(** ** Vocabulary for the accepted languages *)

Definition isLetter (c : ascii) : bool := isUpper c || isLower c.

Definition isHexDigit (c : ascii) : bool :=
  isDigit c
  || ((97 <=? nat_of_ascii c) && (nat_of_ascii c <=? 102))%nat
  || ((65 <=? nat_of_ascii c) && (nat_of_ascii c <=? 70))%nat.

(** The characters of the local part of an address. *)
Definition isLocalChar (c : ascii) : bool :=
  isLetter c || isDigit c
  || existsb (Ascii.eqb c) (list_ascii_of_string "._%+-").

(** The characters of the domain part of an address. *)
Definition isDomainChar (c : ascii) : bool :=
  isLetter c || isDigit c || existsb (Ascii.eqb c) (list_ascii_of_string ".-").

Definition isVariantNibble (c : ascii) : bool :=
  existsb (Ascii.eqb c) (list_ascii_of_string "89abAB").

(** [w] is made of exactly [n] characters, all satisfying [p]. *)
Definition allOf (p : ascii -> bool) (n : nat) (w : list ascii) : Prop :=
  length w = n /\ Forall (fun c => p c = true) w.

(** The same string up to the case of its letters. *)
Definition sameUpToCase (w w' : list ascii) : Prop :=
  Forall2 (fun a b => toUpper a = toUpper b) w w'.

(** The value of a criterion as the generators see it. *)
Definition criterionSet (o : Options) (k : string) : bool :=
  ToBoolean (readProp o k).

(** * Sanity checks of the embedding *)

Example email_no_argument :
  generateEmailRegex ArgUndefined
  = Normal {| pattern := "^[a-zA-Z0-9._%+-]+@[a-zA-Z0-9.-]+\.[a-zA-Z]{2,63}$";
              flags := "i" |}.
Proof. reflexivity. Qed.

Example ipv4_cidr_pattern :
  generateIPv4Regex (ArgObject {[ "allowCIDR"%string := VNum 1 ]})
  = Normal {| pattern := "^(?:25[0-5]|2[0-4]\d|1\d{2}|[1-9]?\d)\.(?:25[0-5]|2[0-4]\d|1\d{2}|[1-9]?\d)\.(?:25[0-5]|2[0-4]\d|1\d{2}|[1-9]?\d)\.(?:25[0-5]|2[0-4]\d|1\d{2}|[1-9]?\d)(?:/(?:[0-9]|[12][0-9]|3[0-2]))?$";
              flags := "" |}.
Proof. vm_compute. reflexivity. Qed.

(** An inherited criterion is read, an own one shadows it, and a chain of
    prototypes is followed to its end. *)
Example read_inherited :
  readProp (<["__proto__" := VObj {[ "allowCIDR" := VBool true ]}]> ∅) "allowCIDR"
  = VBool true.
Proof. vm_compute. reflexivity. Qed.

Example read_own_shadows_inherited :
  readProp (<["allowCIDR" := VBool false]>
              (<["__proto__" := VObj {[ "allowCIDR" := VBool true ]}]> ∅))
    "allowCIDR"
  = VBool false.
Proof. vm_compute. reflexivity. Qed.

Example read_two_prototypes_up :
  readProp
    (<["__proto__" := VObj {[ "__proto__" := VObj {[ "allowCIDR" := VNum 1 ]} ]}]> ∅)
    "allowCIDR"
  = VNum 1.
Proof. vm_compute. reflexivity. Qed.

Example read_null_prototype :
  readProp (<["__proto__" := VNull]> ∅) "allowCIDR" = VUndefined.
Proof. vm_compute. reflexivity. Qed.

Example ipv4_inherited_criterion :
  generateIPv4Regex
    (ArgObject (<["__proto__" := VObj {[ "allowCIDR" := VBool true ]}]> ∅))
  = generateIPv4Regex (ArgObject {[ "allowCIDR" := VBool true ]}).
Proof. vm_compute. reflexivity. Qed.

(** Reading a property of [null] raises; the UUID generator reads none. *)
Example email_null_raises : generateEmailRegex ArgNull = Throw TypeError.
Proof. reflexivity. Qed.

Example uuid_null_ignored :
  generateUUIDRegex ArgNull = generateUUIDRegex ArgUndefined.
Proof. reflexivity. Qed.

Example lookupCategory_cep :
  (fun d => (name d, declaredIds d)) <$> lookupCategory "cep"
  = Some ("CEP"%string, ["allowOptionalSymbols"%string]).
Proof. reflexivity. Qed.

Example lookupCategory_unknown : lookupCategory "phone" = None.
Proof. reflexivity. Qed.

Example parse_cep_relaxed :
  parsePattern "^\d{5}-?\d{3}$"
  = Some (RSeq RStart
           (RSeq (RQuant 5 (Some 5) true (classEscape CDigit))
              (RSeq (RQuant 0 (Some 1) true (single "-"))
                 (RSeq (RQuant 3 (Some 3) true (classEscape CDigit))
                    (RSeq REnd REmpty))))).
Proof. reflexivity. Qed.

Example parse_class_trailing_dash :
  parsePattern "[a-c.-]+"
  = Some (RSeq (RQuant 1 None true
                  (RChar {| invert := false;
                            atoms := [CRange "a" "c"; CChar "."; CChar "-"] |}))
            REmpty).
Proof. reflexivity. Qed.

Example parse_unclosed_group : parsePattern "(?:ab" = None.
Proof. reflexivity. Qed.

Example parse_bad_bounds : parsePattern "a{3,2}" = None.
Proof. reflexivity. Qed.

(** Without anchors [test] searches: a match anywhere is enough. *)
Example test_unanchored_searches :
  test {| pattern := "\d{2}"; flags := "" |} "ab12cd" = Some true
  /\ test {| pattern := "^\d{2}$"; flags := "" |} "ab12cd" = Some false.
Proof. split; reflexivity. Qed.

Example test_ignore_case :
  test {| pattern := "^[a-f]+$"; flags := "i" |} "CaFe" = Some true
  /\ test {| pattern := "^[a-f]+$"; flags := "" |} "CaFe" = Some false.
Proof. split; reflexivity. Qed.

(** A repetition whose body can match the empty string still stops. *)
Example test_empty_iterations :
  test {| pattern := "^(?:a?)*b$"; flags := "" |} "aab" = Some true
  /\ test {| pattern := "^(?:a?)*b$"; flags := "" |} "aac" = Some false.
Proof. split; reflexivity. Qed.

(** * Properties of the matcher *)

Section MatcherCorrect.
Variable ignoreCase : bool.

Local Abbreviation Matches' := (Matches ignoreCase).
Local Abbreviation Productive' := (Productive ignoreCase).

Lemma leMax_pred (mx : option nat) : leMax (pred <$> mx) mx.
Proof. destruct mx as [k|]; simpl; [lia | exact I]. Qed.

Lemma leMax_pred_mono (a b : option nat) :
  leMax a b -> leMax (pred <$> a) (pred <$> b).
Proof. destruct a, b; simpl; try tauto; lia. Qed.

Lemma leMax_nonzero (a b : option nat) :
  leMax a b -> a <> Some 0 -> b <> Some 0.
Proof.
  destruct a as [x|], b as [y|]; simpl; intros Hle Ha; try congruence.
  intros [= ->]. apply Ha. f_equal. lia.
Qed.

(** Raising the upper bound keeps the iterations. *)
Lemma productive_raise r mn mx pos w rest :
  Productive' r mn mx pos w rest ->
  mn = 0 ->
  forall mx', leMax mx mx' -> Productive' r 0 mx' pos w rest.
Proof.
  induction 1 as [mn pos rest | mx pos rest
                 | mn mx pos w1 w2 rest Hmx Hr Hne Htail IH];
    intros Hz mx' Hle; try subst mn.
  - apply PMin.
  - apply PMin.
  - apply PStep; eauto using leMax_nonzero.
    apply IH; [reflexivity | by apply leMax_pred_mono].
Qed.

(** Empty iterations past the minimum can be left out. *)
Lemma matches_productive mn mx g r pos w rest :
  Matches' (RQuant mn mx g r) pos w rest ->
  Productive' r mn mx pos w rest.
Proof.
  intros H. remember (RQuant mn mx g r) as q eqn:Eq.
  revert mn mx Eq.
  induction H as [| | | | | | | mn' g' r' pos rest | mx' g' r' pos rest
                 | mn' mx' g' r' pos w1 w2 rest Hmx Hr _ Htail IH | ];
    intros mn mx Eq; try discriminate; injection Eq as ? ? ? ?; subst.
  - apply PMax.
  - apply PMin.
  - specialize (IH _ _ eq_refl).
    destruct (decide (mn = 0 /\ w1 = [])) as [[-> ->]|Hn].
    + simpl in *. rewrite Nat.add_0_r in IH.
      eapply productive_raise; eauto using leMax_pred.
    + apply PStep; try assumption. intros Hz Hw. by apply Hn.
Qed.

Section Repeat.
Variables (m : Matcher) (r : Regex).

Hypothesis m_sound : forall pos inp c,
  m pos inp c = true ->
  exists w rest, inp = w ++ rest /\ Matches' r pos w rest
                 /\ c (pos + length w) rest = true.

Hypothesis m_complete : forall pos w rest c,
  Matches' r pos w rest ->
  c (pos + length w) rest = true ->
  m pos (w ++ rest) c = true.

Lemma repeatMatcher_sound fuel : forall mn mx g pos inp c,
  repeatMatcher m fuel mn mx g pos inp c = true ->
  exists w rest, inp = w ++ rest /\ Matches' (RQuant mn mx g r) pos w rest
                 /\ c (pos + length w) rest = true.
Proof.
  induction fuel as [|fuel IH]; intros mn mx g pos inp c H; [discriminate|].
  assert (Hstop : c pos inp = true -> mn = 0 \/ mx = Some 0 ->
            exists w rest, inp = w ++ rest
              /\ Matches' (RQuant mn mx g r) pos w rest
              /\ c (pos + length w) rest = true).
  { intros Hc Hz. exists [], inp. rewrite Nat.add_0_r.
    split; [reflexivity|]. split; [|exact Hc].
    destruct Hz as [-> | ->]; [apply MQuantMin | apply MQuantMax]. }
  assert (Hiter : mx <> Some 0 ->
            m pos inp (fun pos' inp' =>
              if (mn =? 0)%nat && (pos' =? pos)%nat then false
              else repeatMatcher m fuel (pred mn) (pred <$> mx) g pos' inp' c)
            = true ->
            exists w rest, inp = w ++ rest
              /\ Matches' (RQuant mn mx g r) pos w rest
              /\ c (pos + length w) rest = true).
  { intros Hmx Hm. apply m_sound in Hm as (w1 & rest1 & -> & Hr & Hd).
    destruct ((mn =? 0)%nat && (pos + length w1 =? pos)%nat); [discriminate|].
    apply IH in Hd as (w2 & rest & -> & Hq & Hc).
    exists (w1 ++ w2), rest. rewrite <- app_assoc, length_app, Nat.add_assoc.
    split; [reflexivity|]. split; [|exact Hc].
    by apply MQuantStep. }
  simpl in H.
  destruct mx as [[|k]|]; [by apply Hstop; auto | |].
  all: destruct (mn =? 0)%nat eqn:Emn; simpl in H;
       [apply Nat.eqb_eq in Emn | by apply Hiter].
  all: destruct g;
       [ destruct (m pos inp _) eqn:Em in H; [by apply Hiter | by apply Hstop; auto]
       | destruct (c pos inp) eqn:Ec in H; [by apply Hstop; auto | by apply Hiter] ].
Qed.

Lemma repeatMatcher_complete mn mx g pos w rest :
  Productive' r mn mx pos w rest ->
  forall fuel c,
    mn + length (w ++ rest) < fuel ->
    c (pos + length w) rest = true ->
    repeatMatcher m fuel mn mx g pos (w ++ rest) c = true.
Proof.
  induction 1 as [mn pos rest | mx pos rest
                 | mn mx pos w1 w2 rest Hmx Hr Hne Htail IH];
    intros fuel c Hfuel Hc.
  - destruct fuel; [lia|]. simpl. by rewrite Nat.add_0_r in Hc.
  - destruct fuel; [lia|]. simpl. rewrite Nat.add_0_r in Hc. simpl in Hc.
    rewrite Hc. destruct mx as [[|k]|]; try reflexivity.
    all: destruct g; try reflexivity; by destruct (m pos rest _).
  - destruct fuel as [|fuel]; [lia|].
    rewrite length_app, Nat.add_assoc in Hc.
    rewrite !length_app in Hfuel.
    assert (Hm : m pos ((w1 ++ w2) ++ rest) (fun pos' inp' =>
              if (mn =? 0)%nat && (pos' =? pos)%nat then false
              else repeatMatcher m fuel (pred mn) (pred <$> mx) g pos' inp' c)
            = true).
    { rewrite <- app_assoc. apply m_complete; [exact Hr|].
      replace ((mn =? 0)%nat && (pos + length w1 =? pos)%nat) with false.
      - apply IH; [|exact Hc]. rewrite length_app.
        destruct mn; simpl; [|lia].
        specialize (Hne eq_refl). destruct w1; [done | simpl in *; lia].
      - symmetry. apply andb_false_iff.
        destruct mn; [right | by left].
        apply Nat.eqb_neq. specialize (Hne eq_refl).
        destruct w1; [done | simpl; lia]. }
    simpl. destruct mx as [[|k]|]; [done | |].
    all: destruct (mn =? 0)%nat; simpl in Hm |- *; [|exact Hm].
    all: destruct g; rewrite Hm; try reflexivity;
         by destruct (c pos _).
Qed.
End Repeat.

Lemma compileMatcher_sound r : forall pos inp c,
  compileMatcher ignoreCase r pos inp c = true ->
  exists w rest, inp = w ++ rest /\ Matches' r pos w rest
                 /\ c (pos + length w) rest = true.
Proof.
  induction r as [| cs | | | r1 IH1 r2 IH2 | r1 IH1 r2 IH2
                 | mn mx g r IH | cap r IH];
    intros pos inp c H; simpl in H.
  - exists [], inp. rewrite Nat.add_0_r. eauto using Matches.
  - destruct inp as [|ch rest]; [discriminate|].
    destruct (charSetMatches ignoreCase cs ch) eqn:E; [|discriminate].
    exists [ch], rest. simpl. rewrite Nat.add_1_r. eauto using Matches.
  - destruct (pos =? 0)%nat eqn:E; [|discriminate].
    apply Nat.eqb_eq in E as ->. exists [], inp. eauto using Matches.
  - destruct inp; [|discriminate].
    exists [], []. rewrite Nat.add_0_r. eauto using Matches.
  - apply IH1 in H as (w1 & rest1 & -> & H1 & H).
    apply IH2 in H as (w2 & rest & -> & H2 & H).
    exists (w1 ++ w2), rest. rewrite <- app_assoc, length_app, Nat.add_assoc.
    eauto using Matches.
  - destruct (compileMatcher ignoreCase r1 pos inp c) eqn:E.
    + apply IH1 in E as (w & rest & -> & H1 & Hc). eauto 6 using Matches.
    + apply IH2 in H as (w & rest & -> & H2 & Hc). eauto 6 using Matches.
  - apply (repeatMatcher_sound _ r IH (S (mn + length inp))). exact H.
  - apply IH in H as (w & rest & -> & H1 & Hc). eauto 6 using Matches.
Qed.

Lemma compileMatcher_complete r : forall pos w rest c,
  Matches' r pos w rest ->
  c (pos + length w) rest = true ->
  compileMatcher ignoreCase r pos (w ++ rest) c = true.
Proof.
  induction r as [| cs | | | r1 IH1 r2 IH2 | r1 IH1 r2 IH2
                 | mn mx g r IH | cap r IH];
    intros pos w rest c H Hc.
  - inversion H; subst. simpl in *. by rewrite Nat.add_0_r in Hc.
  - inversion H as [| ? ? ? ? E | | | | | | | | |]; subst. simpl in *.
    rewrite E. by rewrite Nat.add_1_r in Hc.
  - inversion H; subst. exact Hc.
  - inversion H; subst. simpl in *. by rewrite Nat.add_0_r in Hc.
  - inversion H as [| | | | ? ? ? w1 w2 ? H1 H2 | | | | | |]; subst. simpl.
    rewrite <- app_assoc. apply IH1; [exact H1|].
    apply IH2; [exact H2|]. by rewrite length_app, Nat.add_assoc in Hc.
  - simpl. inversion H; subst.
    + by rewrite IH1.
    + rewrite (IH2 _ _ _ c) by assumption.
      by destruct (compileMatcher ignoreCase r1 _ _ _).
  - apply matches_productive in H.
    apply (repeatMatcher_complete _ r IH mn mx g pos w rest H
             (S (mn + length (w ++ rest))) c); [lia | exact Hc].
  - inversion H; subst. simpl. by apply IH.
Qed.

(** The matcher finds exactly the matches of the relation. *)
Theorem compileMatcher_correct r pos inp c :
  compileMatcher ignoreCase r pos inp c = true <->
  exists w rest, inp = w ++ rest /\ Matches' r pos w rest
                 /\ c (pos + length w) rest = true.
Proof.
  split; [apply compileMatcher_sound|].
  intros (w & rest & -> & H & Hc). by apply compileMatcher_complete.
Qed.

(** [test] succeeds exactly when some part of the input is a match. *)
Theorem regExpTest_correct r (s : list ascii) :
  regExpTest ignoreCase r s = true <->
  exists pre w rest, s = pre ++ w ++ rest /\ Matches' r (length pre) w rest.
Proof.
  unfold regExpTest. rewrite existsb_exists. split.
  - intros (i & Hi & H). apply in_seq in Hi.
    apply compileMatcher_sound in H as (w & rest & Hd & H & _).
    exists (take i s), w, rest. rewrite <- Hd, take_drop.
    split; [reflexivity|]. rewrite length_take, Nat.min_l by lia. exact H.
  - intros (pre & w & rest & -> & H). exists (length pre). split.
    + apply in_seq. rewrite length_app. lia.
    + rewrite drop_app_length. by apply compileMatcher_complete.
Qed.

Lemma anchoredStart_sound r pos w rest :
  anchoredStart r = true -> Matches' r pos w rest -> pos = 0.
Proof.
  intros Ha H. induction H; simpl in Ha; try discriminate; auto.
  - apply orb_true_iff in Ha as [Ha|Ha]; auto.
    specialize (IHMatches2 Ha). lia.
  - apply andb_true_iff in Ha as [Ha _]; auto.
  - apply andb_true_iff in Ha as [_ Ha]; auto.
  - by rewrite andb_false_r in Ha.
  - apply andb_true_iff in Ha as [_ Ha]; auto.
Qed.

Lemma anchoredEnd_sound r pos w rest :
  anchoredEnd r = true -> Matches' r pos w rest -> rest = [].
Proof.
  intros Ha H. induction H; simpl in Ha; try discriminate; auto.
  - apply orb_true_iff in Ha as [Ha|Ha]; auto.
    specialize (IHMatches1 Ha). by apply app_eq_nil in IHMatches1 as [_ ->].
  - apply andb_true_iff in Ha as [Ha _]; auto.
  - apply andb_true_iff in Ha as [_ Ha]; auto.
  - by rewrite andb_false_r in Ha.
  - apply andb_true_iff in Ha as [_ Ha].
    specialize (IHMatches1 Ha). by apply app_eq_nil in IHMatches1 as [_ ->].
Qed.

(** An anchored expression accepts a string only as a whole. *)
Theorem regExpTest_anchored r (s : list ascii) :
  anchoredStart r = true -> anchoredEnd r = true ->
  (regExpTest ignoreCase r s = true <-> Matches' r 0 s []).
Proof.
  intros Hs He. rewrite regExpTest_correct. split.
  - intros (pre & w & rest & -> & H).
    pose proof (anchoredStart_sound _ _ _ _ Hs H) as Hp.
    pose proof (anchoredEnd_sound _ _ _ _ He H) as ->.
    apply length_zero_iff_nil in Hp. subst pre.
    simpl in *. by rewrite app_nil_r.
  - intros H. exists [], s, []. by rewrite app_nil_r.
Qed.
End MatcherCorrect.

(** ** Relaxation and fixed-length shapes *)

Section Relaxation.
Variable ignoreCase : bool.

Local Abbreviation Matches' := (Matches ignoreCase).

Lemma matches_optional_skip a b pos w rest :
  isOptional a = true ->
  Matches' b pos w rest -> Matches' (RSeq a b) pos w rest.
Proof.
  intros Ha Hb. destruct a as [| | | | | |[|mn] mx g a|]; try discriminate.
  change w with ([] ++ w). apply MSeq; [apply MQuantMin|].
  simpl. by rewrite Nat.add_0_r.
Qed.

Lemma matches_once mx g a pos w rest :
  mx <> Some 0 ->
  Matches' a pos w rest -> Matches' (RQuant 0 mx g a) pos w rest.
Proof.
  intros Hmx Ha. rewrite <- (app_nil_r w).
  apply MQuantStep; [exact Hmx | exact Ha | apply MQuantMin].
Qed.

Lemma relaxes_sound r' : forall r,
  relaxes r r' = true ->
  forall pos w rest, Matches' r pos w rest -> Matches' r' pos w rest.
Proof.
  induction r' as [| cs | | | a' IHa b' IHb | a' IHa b' IHb
                  | mn mx g a' IH | cap a' IH];
    intros r Hrel pos w rest H; simpl in Hrel;
    apply orb_true_iff in Hrel as [Heq|Hrel];
    try (apply bool_decide_eq_true in Heq; by subst);
    try discriminate.
  - apply orb_true_iff in Hrel as [Hrel|Hrel].
    + apply andb_true_iff in Hrel as [Hopt Hrel].
      apply matches_optional_skip; eauto.
    + destruct r as [| | | | a b | | |]; try discriminate.
      apply andb_true_iff in Hrel as [Ha Hb].
      inversion H; subst. apply MSeq; eauto.
  - destruct mn; [|discriminate].
    apply andb_true_iff in Hrel as [Hmx Hrel].
    apply matches_once; eauto.
    apply negb_true_iff, bool_decide_eq_false in Hmx. exact Hmx.
  - destruct r as [| | | | | | | cap0 a]; try discriminate.
    inversion H; subst. apply MGroup; eauto.
Qed.

Lemma regExpTest_relaxes r r' (s : list ascii) :
  relaxes r r' = true ->
  regExpTest ignoreCase r s = true -> regExpTest ignoreCase r' s = true.
Proof.
  intros Hrel. rewrite !regExpTest_correct.
  intros (pre & w & rest & -> & H).
  exists pre, w, rest. eauto using relaxes_sound.
Qed.

Abbreviation fits := (Forall2 (fun cs ch => charSetMatches ignoreCase cs ch = true)).

Lemma exact_repeat_shape g r sh :
  (forall pos w rest, Matches' r pos w rest -> fits sh w) ->
  forall n pos w rest,
    Matches' (RQuant n (Some n) g r) pos w rest ->
    fits (concat (replicate n sh)) w.
Proof.
  intros Hr n. induction n as [|n IH]; intros pos w rest H.
  - inversion H; subst; try constructor. congruence.
  - inversion H as [| | | | | | | | | ? ? ? ? ? w1 w2 ? Hmx H1 H2 |]; subst.
    simpl. apply Forall2_app; eauto.
Qed.

Lemma shape_sound r : forall sh pos w rest,
  shape r = Some sh -> Matches' r pos w rest -> fits sh w.
Proof.
  induction r as [| cs | | | r1 IH1 r2 IH2 | r1 IH1 r2 IH2
                 | mn mx g r IH | cap r IH];
    intros sh pos w rest Hsh H; simpl in Hsh.
  - inversion H; subst. injection Hsh as <-. constructor.
  - inversion H; subst. injection Hsh as <-. by repeat constructor.
  - inversion H; subst. injection Hsh as <-. constructor.
  - inversion H; subst. injection Hsh as <-. constructor.
  - destruct (shape r1) as [s1|]; [|discriminate].
    destruct (shape r2) as [s2|]; [|discriminate].
    injection Hsh as <-. inversion H; subst. apply Forall2_app; eauto.
  - discriminate.
  - destruct mx as [mx|]; [|discriminate].
    destruct (mn =? mx)%nat eqn:E; [|discriminate].
    apply Nat.eqb_eq in E as <-.
    destruct (shape r) as [s|]; [|discriminate]. injection Hsh as <-.
    eapply exact_repeat_shape; eauto.
  - inversion H; subst. eauto.
Qed.
End Relaxation.

(** ** Finite languages *)

Section Words.
Variable ignoreCase : bool.

Local Abbreviation Matches' := (Matches ignoreCase).

Lemma elem_of_allChars (c : ascii) : c ∈ allChars.
Proof.
  apply list_elem_of_fmap. exists (nat_of_ascii c).
  split; [by rewrite ascii_nat_embedding|].
  apply elem_of_seq. pose proof (nat_ascii_bounded c). lia.
Qed.

Lemma elem_of_product (A B : list (list ascii)) (w : list ascii) :
  w ∈ product A B <-> exists w1 w2, w = w1 ++ w2 /\ w1 ∈ A /\ w2 ∈ B.
Proof.
  unfold product. rewrite list_elem_of_bind. split.
  - intros (w1 & H & H1). apply list_elem_of_bind in H as (w2 & H & H2).
    apply list_elem_of_singleton in H. eauto.
  - intros (w1 & w2 & -> & H1 & H2). exists w1. split; [|exact H1].
    apply list_elem_of_bind. exists w2. split; [|exact H2].
    by apply list_elem_of_singleton.
Qed.

Lemma wordsRep_correct g a (A : list (list ascii)) :
  (forall pos w rest, Matches' a pos w rest <-> w ∈ A) ->
  forall mx mn pos w rest,
    Matches' (RQuant mn (Some mx) g a) pos w rest <-> w ∈ wordsRep A mn mx.
Proof.
  intros Ha mx. induction mx as [|mx IH]; intros mn pos w rest; simpl.
  - rewrite list_elem_of_singleton. split.
    + intros H. inversion H; subst; congruence.
    + intros ->. apply MQuantMax.
  - rewrite elem_of_app, elem_of_product. split.
    + intros H. inversion H; subst.
      * left. by apply list_elem_of_singleton.
      * right. exists w1, w2. split; [reflexivity|].
        split; [by eapply Ha | by eapply IH].
    + intros [H|(w1 & w2 & -> & H1 & H2)].
      * destruct mn; [|by apply not_elem_of_nil in H].
        apply list_elem_of_singleton in H as ->. apply MQuantMin.
      * apply MQuantStep; [discriminate | by apply Ha | by apply IH].
Qed.

Lemma words_correct r : forall L pos w rest,
  words ignoreCase r = Some L ->
  (Matches' r pos w rest <-> w ∈ L).
Proof.
  induction r as [| cs | | | r1 IH1 r2 IH2 | r1 IH1 r2 IH2
                 | mn mx g r IH | cap r IH];
    intros L pos w rest HL; simpl in HL; try discriminate.
  - injection HL as <-. rewrite list_elem_of_singleton.
    split; [by inversion 1 | intros ->; constructor].
  - injection HL as <-. rewrite list_elem_of_fmap. split.
    + inversion 1; subst. eexists. split; [reflexivity|].
      apply list_elem_of_filter. split; [assumption | apply elem_of_allChars].
    + intros (c & -> & Hc). apply list_elem_of_filter in Hc as [Hc _].
      by constructor.
  - destruct (words ignoreCase r1) as [A|]; [|discriminate].
    destruct (words ignoreCase r2) as [B|]; [|discriminate].
    injection HL as <-. rewrite elem_of_product. split.
    + inversion 1; subst. exists w1, w2. split; [reflexivity|].
      split; [by eapply IH1 | by eapply IH2].
    + intros (w1 & w2 & -> & H1 & H2).
      apply MSeq; [by eapply IH1 | by eapply IH2].
  - destruct (words ignoreCase r1) as [A|]; [|discriminate].
    destruct (words ignoreCase r2) as [B|]; [|discriminate].
    injection HL as <-. rewrite elem_of_app. split.
    + inversion 1; subst; [left; by eapply IH1 | right; by eapply IH2].
    + intros [H|H]; [apply MAltL; by eapply IH1 | apply MAltR; by eapply IH2].
  - destruct mx as [mx|]; [|discriminate].
    destruct (words ignoreCase r) as [A|]; [|discriminate].
    injection HL as <-. apply wordsRep_correct.
    intros pos' w' rest'. by apply IH.
  - split.
    + inversion 1; subst. by eapply IH.
    + intros H. apply MGroup. by eapply IH.
Qed.

Lemma matches_seq r1 r2 pos w rest :
  Matches' (RSeq r1 r2) pos w rest <->
  exists w1 w2, w = w1 ++ w2 /\ Matches' r1 pos w1 (w2 ++ rest)
                /\ Matches' r2 (pos + length w1) w2 rest.
Proof.
  split.
  - inversion 1; subst. eauto.
  - intros (w1 & w2 & -> & H1 & H2). by apply MSeq.
Qed.
End Words.

(** ** From expressions to generated patterns *)

Lemma test_compiled g r i s :
  parsePattern (pattern g) = Some r ->
  parseFlags (flags g) = Some i ->
  test g s = Some (regExpTest i r (list_ascii_of_string s)).
Proof. unfold test. by intros -> ->. Qed.

Lemma wholeStringOnly_intro g body r i :
  pattern g = anchor body ->
  parsePattern (pattern g) = Some r ->
  parseFlags (flags g) = Some i ->
  anchoredStart r = true ->
  anchoredEnd r = true ->
  wholeStringOnly g.
Proof.
  intros Hb Hr Hi Hs He. exists body, r, i. repeat split; try assumption.
  - eauto using anchoredStart_sound.
  - eauto using anchoredEnd_sound.
  - rewrite (test_compiled _ _ _ _ Hr Hi). intros [= H].
    by apply regExpTest_anchored in H.
  - intros H. rewrite (test_compiled _ _ _ _ Hr Hi). f_equal.
    by apply regExpTest_anchored.
Qed.

Lemma test_relaxes g g' r r' i s :
  parsePattern (pattern g) = Some r ->
  parsePattern (pattern g') = Some r' ->
  parseFlags (flags g) = Some i ->
  parseFlags (flags g') = Some i ->
  relaxes r r' = true ->
  test g s = Some true -> test g' s = Some true.
Proof.
  intros Hr Hr' Hi Hi' Hrel.
  rewrite (test_compiled _ _ _ _ Hr Hi), (test_compiled _ _ _ _ Hr' Hi').
  intros [= H]. f_equal. eauto using regExpTest_relaxes.
Qed.

Lemma get_list_ascii_of_string (s : string) (n : nat) :
  String.get n s = list_ascii_of_string s !! n.
Proof.
  revert n. induction s as [|c s IH]; intros [|n]; simpl; auto.
Qed.

Lemma length_list_ascii_of_string (s : string) :
  length (list_ascii_of_string s) = String.length s.
Proof. induction s; simpl; auto. Qed.

(** ** Property reads *)

Lemma depth_proto (p : gmap string Value) (k : string) (q : Value) :
  p !! k = Some q -> depth q < depth (VObj p).
Proof.
  intros Hq. rewrite <- (insert_id p k q Hq), <- insert_delete_eq. simpl.
  rewrite map_fold_insert_L; [lia | intros; lia | apply lookup_delete_eq].
Qed.

Lemma getValueFuel_enough (k : string) (n : nat) : forall m v,
  depth v <= n -> depth v <= m -> getValueFuel n v k = getValueFuel m v k.
Proof.
  induction n as [|n IH]; intros m v Hn Hm; destruct v as [| | | | |p];
    try (by destruct m); simpl in Hn; try lia.
  simpl in Hm. destruct m as [|m]; [lia|]. simpl.
  destruct (p !! k); [done|].
  destruct (p !! "__proto__"%string) as [q|] eqn:Hq; [|done].
  apply depth_proto in Hq. simpl in Hq. apply IH; lia.
Qed.

(** The read as [OrdinaryGet] states it, without the fuel. *)
Lemma getValue_unfold (p : gmap string Value) (k : string) :
  getValue (VObj p) k
  = match p !! k with
    | Some x => x
    | None =>
        match p !! "__proto__"%string with
        | Some proto => getValue proto k
        | None => VUndefined
        end
    end.
Proof.
  unfold getValue. simpl. destruct (p !! k); [done|].
  destruct (p !! "__proto__"%string) as [q|] eqn:Hq; [|done].
  apply depth_proto in Hq. simpl in Hq. apply getValueFuel_enough; lia.
Qed.

Lemma readProp_own (o : Options) (k : string) (v : Value) :
  o !! k = Some v -> readProp o k = v.
Proof. intros H. unfold readProp. by rewrite getValue_unfold, H. Qed.

Lemma readProp_insert_eq (o : Options) (k : string) (v : Value) :
  readProp (<[k := v]> o) k = v.
Proof. apply readProp_own, lookup_insert_eq. Qed.

Lemma readProp_singleton_eq (k : string) (v : Value) :
  readProp {[ k := v ]} k = v.
Proof. apply readProp_own, lookup_singleton_eq. Qed.

Lemma readProp_empty (k : string) : readProp ∅ k = VUndefined.
Proof. unfold readProp. by rewrite getValue_unfold, !lookup_empty. Qed.


(** ** The generators on an options record *)

Lemma generateEmailRegex_record (o : Options) :
  generateEmailRegex (ArgObject o)
  = Normal
      {| pattern :=
           anchor
             (if ToBoolean (readProp o "allowSubdomains")
              then "[a-zA-Z0-9._%+-]+@[a-zA-Z0-9.-]+\.[a-zA-Z]{2,63}(\.[a-zA-Z]{2})?"
              else "[a-zA-Z0-9._%+-]+@[a-zA-Z0-9.-]+\.[a-zA-Z]{2,63}")%string;
         flags := "i" |}.
Proof. reflexivity. Qed.

Lemma generateCPFRegex_record (o : Options) :
  generateCPFRegex (ArgObject o)
  = Normal
      {| pattern :=
           anchor
             (if ToBoolean (readProp o "allowOptionalSymbols")
              then "\d{3}\.?\d{3}\.?\d{3}-?\d{2}"
              else "\d{3}\.\d{3}\.\d{3}-\d{2}")%string;
         flags := "" |}.
Proof. reflexivity. Qed.

Lemma generateCEPRegex_record (o : Options) :
  generateCEPRegex (ArgObject o)
  = Normal
      {| pattern :=
           anchor
             (if ToBoolean (readProp o "allowOptionalSymbols")
              then "\d{5}-?\d{3}"
              else "\d{5}-\d{3}")%string;
         flags := "" |}.
Proof. reflexivity. Qed.

Lemma generateIPv4Regex_record (o : Options) :
  generateIPv4Regex (ArgObject o)
  = Normal
      {| pattern :=
           anchor
             (if ToBoolean (readProp o "allowCIDR")
              then "(?:25[0-5]|2[0-4]\d|1\d{2}|[1-9]?\d)\.(?:25[0-5]|2[0-4]\d|1\d{2}|[1-9]?\d)\.(?:25[0-5]|2[0-4]\d|1\d{2}|[1-9]?\d)\.(?:25[0-5]|2[0-4]\d|1\d{2}|[1-9]?\d)(?:/(?:[0-9]|[12][0-9]|3[0-2]))?"
              else "(?:25[0-5]|2[0-4]\d|1\d{2}|[1-9]?\d)\.(?:25[0-5]|2[0-4]\d|1\d{2}|[1-9]?\d)\.(?:25[0-5]|2[0-4]\d|1\d{2}|[1-9]?\d)\.(?:25[0-5]|2[0-4]\d|1\d{2}|[1-9]?\d)")%string;
         flags := "" |}.
Proof. reflexivity. Qed.

Lemma lookupCategory_In key d :
  lookupCategory key = Some d -> In (key, d) RegexCategories.
Proof.
  unfold lookupCategory. intros H.
  destruct (find _ RegexCategories) as [[k d']|] eqn:E; [|discriminate].
  injection H as ->. apply find_some in E as [Hin Hk].
  apply String.eqb_eq in Hk. simpl in Hk. by subst.
Qed.

(** Every registry entry, as a case analysis. *)
Lemma RegexCategories_cases key d :
  lookupCategory key = Some d ->
  (key = "email"%string /\ generator d = generateEmailRegex
     /\ declaredIds d = ["allowSubdomains"%string])
  \/ (key = "cpf"%string /\ generator d = generateCPFRegex
     /\ declaredIds d = ["allowOptionalSymbols"%string])
  \/ (key = "cep"%string /\ generator d = generateCEPRegex
     /\ declaredIds d = ["allowOptionalSymbols"%string])
  \/ (key = "uuid"%string /\ generator d = generateUUIDRegex
     /\ declaredIds d = [])
  \/ (key = "ipv4"%string /\ generator d = generateIPv4Regex
     /\ declaredIds d = ["allowCIDR"%string]).
Proof.
  intros H. apply lookupCategory_In in H. simpl in H.
  destruct H as [[= <- <-]|[[= <- <-]|[[= <- <-]|[[= <- <-]|[[= <- <-]|[]]]]]];
    tauto.
Qed.

Lemma test_whole g r i s :
  parsePattern (pattern g) = Some r ->
  parseFlags (flags g) = Some i ->
  anchoredStart r = true ->
  anchoredEnd r = true ->
  (test g s = Some true <-> Matches i r 0 (list_ascii_of_string s) []).
Proof.
  intros Hr Hi Hs He. rewrite (test_compiled _ _ _ _ Hr Hi).
  rewrite <- (regExpTest_anchored i r _ Hs He).
  split; [by intros [= H] | by intros ->].
Qed.

(** ** The pieces of the IPv4 pattern *)

Lemma elem_of_decimalsUpTo (k : nat) (w : list ascii) :
  w ∈ decimalsUpTo k <-> exists n, n <= k /\ w = decimal n.
Proof.
  unfold decimalsUpTo. rewrite list_elem_of_fmap. split.
  - intros (n & -> & Hn). apply elem_of_seq in Hn. exists n. split; [lia | done].
  - intros (n & Hn & ->). exists n. split; [done|]. apply elem_of_seq. lia.
Qed.

(** Settles [Matches false r pos w rest <-> w ∈ D] for a concrete [r] whose
    words can be listed: both inclusions are checked by evaluation. *)
Ltac words_language :=
  match goal with
  | |- Matches _ ?r ?pos ?w ?rest <-> ?w ∈ ?D =>
      let L := fresh "L" in
      let HL := fresh "HL" in
      destruct (words false r) as [L|] eqn:HL; [|vm_compute in HL; discriminate];
      rewrite (words_correct _ _ _ pos w rest HL);
      vm_compute in HL; injection HL as <-;
      split; revert w;
      match goal with
      | |- forall w, w ∈ ?A -> w ∈ ?B => change (A ⊆ B)
      end;
      refine (bool_decide_unpack _ _); vm_compute; exact I
  end.

(** The octet alternative is exactly the numerals 0 to 255. *)
Lemma octet_language r :
  parsePattern "(?:25[0-5]|2[0-4]\d|1\d{2}|[1-9]?\d)" = Some (RSeq r REmpty) ->
  forall pos w rest,
    Matches false r pos w rest <-> exists n, n <= 255 /\ w = decimal n.
Proof.
  intros Hr pos w rest. vm_compute in Hr. injection Hr as <-.
  rewrite <- elem_of_decimalsUpTo. words_language.
Qed.

Lemma dot_language r :
  parsePattern "\." = Some (RSeq r REmpty) ->
  forall pos w rest, Matches false r pos w rest <-> w = ["."%char].
Proof.
  intros Hr pos w rest. vm_compute in Hr. injection Hr as <-.
  rewrite <- list_elem_of_singleton. words_language.
Qed.

(** The optional suffix is empty or a slash and a numeral 0 to 32. *)
Lemma cidr_language r :
  parsePattern "(?:/(?:[0-9]|[12][0-9]|3[0-2]))?" = Some (RSeq r REmpty) ->
  forall pos w rest,
    Matches false r pos w rest
    <-> w = [] \/ exists p, p <= 32 /\ w = "/"%char :: decimal p.
Proof.
  intros Hr pos w rest. vm_compute in Hr. injection Hr as <-.
  transitivity (w ∈ [] :: (cons "/"%char <$> decimalsUpTo 32)).
  - words_language.
  - rewrite elem_of_cons, list_elem_of_fmap. split.
    + intros [->|(d & -> & Hd)]; [by left|].
      apply elem_of_decimalsUpTo in Hd as (p & Hp & ->). eauto.
    + intros [->|(p & Hp & ->)]; [by left|]. right.
      exists (decimal p). split; [done|]. apply elem_of_decimalsUpTo. eauto.
Qed.

Lemma matches_start i pos w rest :
  Matches i RStart pos w rest <-> pos = 0 /\ w = [].
Proof. split; [by inversion 1 | intros [-> ->]; constructor]. Qed.

Lemma matches_end_empty i pos w rest :
  Matches i (RSeq REnd REmpty) pos w rest <-> w = [] /\ rest = [].
Proof.
  rewrite matches_seq. split.
  - intros (w1 & w2 & -> & H1 & H2). inversion H1; subst.
    inversion H2; subst. done.
  - intros [-> ->]. exists [], []. repeat split; constructor.
Qed.

(** Peeling the terms of a sequence off a match, and putting them back. *)
Ltac take_octet H n Hn :=
  let w := fresh "w" in
  let l := fresh "l" in
  let Ho := fresh "Ho" in
  apply matches_seq in H as (w & l & -> & Ho & H);
  eapply octet_language in Ho as (n & Hn & ->); [|vm_compute; reflexivity].

Ltac take_dot H :=
  let w := fresh "w" in
  let l := fresh "l" in
  let Ho := fresh "Ho" in
  apply matches_seq in H as (w & l & -> & Ho & H);
  eapply dot_language in Ho as ->; [|vm_compute; reflexivity].

Ltac give_octet :=
  apply matches_seq; eexists (decimal _), _;
  split; [reflexivity|];
  split; [eapply octet_language; [vm_compute; reflexivity | eauto]|].

Ltac give_dot :=
  apply matches_seq; eexists ["."%char], _;
  split; [reflexivity|];
  split; [eapply dot_language; [vm_compute; reflexivity | reflexivity]|].

(** The default IPv4 pattern accepts exactly the dotted quads of octets. *)
Lemma ipv4_default_language (s : string) :
  testGenerated (generateIPv4Regex (ArgObject ∅)) s = Some true
  <-> exists a b c d,
        a <= 255 /\ b <= 255 /\ c <= 255 /\ d <= 255
        /\ list_ascii_of_string s = dottedQuad a b c d.
Proof.
  rewrite generateIPv4Regex_record, readProp_empty.
  cbn [ToBoolean testGenerated]. cbv beta iota.
  match goal with |- test ?g0 _ = _ <-> _ => set (g := g0) end.
  destruct (parsePattern (pattern g)) as [r|] eqn:Hr;
    [|vm_compute in Hr; discriminate].
  pose proof Hr as Hr'. vm_compute in Hr'. injection Hr' as <-.
  rewrite (test_whole g _ false s Hr eq_refl eq_refl eq_refl).
  clear Hr g. generalize (list_ascii_of_string s) as l. clear s. intros l.
  split.
  - intros H.
    apply matches_seq in H as (w0 & l0 & -> & H0 & H).
    apply matches_start in H0 as [_ ->].
    take_octet H a Ha. take_dot H. take_octet H b Hb. take_dot H.
    take_octet H c Hc. take_dot H. take_octet H d Hd.
    apply matches_end_empty in H as [-> _].
    exists a, b, c, d. rewrite app_nil_r. done.
  - intros (a & b & c & d & Ha & Hb & Hc & Hd & ->). unfold dottedQuad.
    rewrite <- (app_nil_r (decimal d)).
    apply matches_seq. exists [], (decimal a ++ "."%char :: decimal b
      ++ "."%char :: decimal c ++ "."%char :: decimal d ++ []).
    split; [reflexivity|]. split; [by apply matches_start|].
    give_octet. give_dot. give_octet. give_dot. give_octet. give_dot.
    give_octet. by apply matches_end_empty.
Qed.

(** With [allowCIDR] the pattern accepts the dotted quads, alone or
    followed by a slash and a prefix length 0 to 32. *)
Lemma ipv4_cidr_language (s : string) :
  testGenerated (generateIPv4Regex (ArgObject {[ "allowCIDR"%string := VBool true ]})) s
  = Some true
  <-> exists a b c d,
        a <= 255 /\ b <= 255 /\ c <= 255 /\ d <= 255
        /\ (list_ascii_of_string s = dottedQuad a b c d
            \/ exists p, p <= 32
                 /\ list_ascii_of_string s
                    = dottedQuad a b c d ++ "/"%char :: decimal p).
Proof.
  rewrite generateIPv4Regex_record, readProp_singleton_eq.
  cbn [ToBoolean testGenerated]. cbv beta iota.
  match goal with |- test ?g0 _ = _ <-> _ => set (g := g0) end.
  destruct (parsePattern (pattern g)) as [r|] eqn:Hr;
    [|vm_compute in Hr; discriminate].
  pose proof Hr as Hr'. vm_compute in Hr'. injection Hr' as <-.
  rewrite (test_whole g _ false s Hr eq_refl eq_refl eq_refl).
  clear Hr g. generalize (list_ascii_of_string s) as l. clear s. intros l.
  split.
  - intros H.
    apply matches_seq in H as (w0 & l0 & -> & H0 & H).
    apply matches_start in H0 as [_ ->].
    take_octet H a Ha. take_dot H. take_octet H b Hb. take_dot H.
    take_octet H c Hc. take_dot H. take_octet H d Hd.
    apply matches_seq in H as (wp & lp & -> & Hp & H).
    apply matches_end_empty in H as [-> _].
    eapply cidr_language in Hp; [|vm_compute; reflexivity].
    exists a, b, c, d. repeat (split; [assumption|]).
    destruct Hp as [->|(p & Hp & ->)].
    + left. rewrite !app_nil_r. done.
    + right. exists p. split; [exact Hp|]. rewrite app_nil_r. unfold dottedQuad.
      simpl. rewrite <- !app_assoc. simpl. rewrite <- !app_assoc. simpl.
      rewrite <- !app_assoc. reflexivity.
  - intros (a & b & c & d & Ha & Hb & Hc & Hd & Hl).
    assert (exists sfx, l = decimal a ++ "."%char :: decimal b ++ "."%char
                            :: decimal c ++ "."%char :: decimal d ++ sfx ++ []
                        /\ (sfx = [] \/ exists p, p <= 32 /\ sfx = "/"%char :: decimal p))
      as (sfx & -> & Hsfx).
    { destruct Hl as [->|(p & Hp & ->)].
      - exists []. split; [|by left]. unfold dottedQuad. by rewrite app_nil_r.
      - exists ("/"%char :: decimal p). split; [|by eauto].
        unfold dottedQuad. rewrite app_nil_r.
        rewrite <- !app_assoc. simpl. rewrite <- !app_assoc. simpl.
        rewrite <- !app_assoc. reflexivity. }
    apply matches_seq. eexists [], _.
    split; [reflexivity|]. split; [by apply matches_start|].
    give_octet. give_dot. give_octet. give_dot. give_octet. give_dot.
    give_octet.
    apply matches_seq. exists sfx, [].
    split; [reflexivity|].
    split; [eapply cidr_language; [vm_compute; reflexivity | exact Hsfx]|].
    by apply matches_end_empty.
Qed.

(** ** Repeated character sets *)

Lemma matches_class_repeat_1 i mn mx g cs pos w rest :
  Matches i (RQuant mn mx g (RChar cs)) pos w rest ->
  withinMax mn mx ->
  Forall (fun ch => charSetMatches i cs ch = true) w
  /\ mn <= length w /\ withinMax (length w) mx.
Proof.
  intros H. remember (RQuant mn mx g (RChar cs)) as q eqn:Eq.
  revert mn mx Eq.
  induction H as [| | | | | | | mn' g' r' pos rest | mx' g' r' pos rest
                 | mn' mx' g' r' pos w1 w2 rest Hmx Hr _ Htail IH | ];
    intros mn mx Eq Hwf; try discriminate; injection Eq as ? ? ? ?; subst.
  - simpl in *. split; [apply Forall_nil_2|]. lia.
  - split; [apply Forall_nil_2|]. split; [simpl; lia|].
    destruct mx; simpl; [lia | done].
  - destruct (IH _ _ eq_refl) as (Hall & Hmn & Hle).
    { destruct mx as [k|]; simpl in *; [lia | done]. }
    inversion Hr; subst. simpl. split; [by constructor|]. split; [lia|].
    destruct mx as [[|k]|]; simpl in *; [congruence | lia | done].
Qed.

Lemma matches_class_repeat_2 i g cs (w : list ascii) :
  Forall (fun ch => charSetMatches i cs ch = true) w ->
  forall mn mx pos rest,
    mn <= length w -> withinMax (length w) mx ->
    Matches i (RQuant mn mx g (RChar cs)) pos w rest.
Proof.
  induction 1 as [|ch w Hch Hall IH]; intros mn mx pos rest Hmn Hmx.
  - simpl in Hmn. replace mn with 0 by lia. apply MQuantMin.
  - change (ch :: w) with ([ch] ++ w). apply MQuantStep.
    + intros ->. simpl in Hmx. lia.
    + by constructor.
    + apply IH; [simpl in Hmn; lia|].
      destruct mx as [k|]; simpl in *; [lia | done].
Qed.

(** Every letter of the top-level-domain set is in the domain set, and so
    is the dot. *)
Lemma tld_class_in_domain_class (c : ascii) :
  charSetMatches true
    {| invert := false; atoms := [CRange "a" "z"; CRange "A" "Z"] |} c = true ->
  charSetMatches true
    {| invert := false;
       atoms := [CRange "a" "z"; CRange "A" "Z"; CRange "0" "9";
                 CChar "."; CChar "-"] |} c = true.
Proof.
  destruct c as [[] [] [] [] [] [] [] []]; vm_compute; intros H;
    (reflexivity || discriminate H).
Qed.

Lemma dot_class_in_domain_class (c : ascii) :
  charSetMatches true {| invert := false; atoms := [CChar "."] |} c = true ->
  charSetMatches true
    {| invert := false;
       atoms := [CRange "a" "z"; CRange "A" "Z"; CRange "0" "9";
                 CChar "."; CChar "-"] |} c = true.
Proof.
  destruct c as [[] [] [] [] [] [] [] []]; vm_compute; intros H;
    (reflexivity || discriminate H).
Qed.

(** [allowSubdomains] adds nothing: what the pattern with the option
    accepts, the default pattern accepts already (the converse is part of
    the relaxation property). *)
Lemma allowSubdomains_adds_nothing (o : Options) (s : string) :
  testGenerated
    (generateEmailRegex (ArgObject (<["allowSubdomains"%string := VBool true]> o))) s
  = Some true ->
  testGenerated
    (generateEmailRegex (ArgObject (<["allowSubdomains"%string := VBool false]> o))) s
  = Some true.
Proof.
  rewrite !generateEmailRegex_record, !readProp_insert_eq.
  cbn [ToBoolean testGenerated]. cbv beta iota.
  match goal with
  | |- test ?g1 _ = _ -> test ?g0 _ = _ => set (gt := g1); set (gf := g0)
  end.
  destruct (parsePattern (pattern gt)) as [rt|] eqn:Hrt;
    [|vm_compute in Hrt; discriminate].
  destruct (parsePattern (pattern gf)) as [rf|] eqn:Hrf;
    [|vm_compute in Hrf; discriminate].
  pose proof Hrt as Hrt'. vm_compute in Hrt'. injection Hrt' as <-.
  pose proof Hrf as Hrf'. vm_compute in Hrf'. injection Hrf' as <-.
  rewrite (test_whole gt _ true s Hrt eq_refl eq_refl eq_refl).
  rewrite (test_whole gf _ true s Hrf eq_refl eq_refl eq_refl).
  clear. generalize (list_ascii_of_string s) as l. clear s. intros l H.
  apply matches_seq in H as (w0 & l0 & -> & H0 & H).
  apply matches_seq in H as (wl & l1 & -> & Hl & H).
  apply matches_seq in H as (wa & l2 & -> & Hat & H).
  apply matches_seq in H as (wd & l3 & -> & Hd & H).
  apply matches_seq in H as (wp & l4 & -> & Hp & H).
  apply matches_seq in H as (wt & l5 & -> & Ht & H).
  apply matches_seq in H as (ws & l6 & -> & Hs & H).
  apply matches_end_empty in H as [-> _].
  apply matches_seq. exists w0, (wl ++ wa ++ wd ++ wp ++ wt ++ ws ++ []).
  split; [reflexivity|]. split; [exact H0|].
  apply matches_seq. exists wl, (wa ++ wd ++ wp ++ wt ++ ws ++ []).
  split; [reflexivity|]. split; [exact Hl|].
  apply matches_seq. exists wa, (wd ++ wp ++ wt ++ ws ++ []).
  split; [reflexivity|]. split; [exact Hat|].
  inversion Hs as [| | | | | | | | ? ? ? ? rest0
                  | ? ? ? ? ? w1 w2 rest0 _ Hg Hz |]; subst.
  - (* no suffix *)
    apply matches_seq. exists wd, (wp ++ wt ++ []).
    split; [reflexivity|]. split; [exact Hd|].
    apply matches_seq. exists wp, (wt ++ []).
    split; [reflexivity|]. split; [exact Hp|].
    apply matches_seq. exists wt, []. rewrite app_nil_r.
    split; [reflexivity|]. split; [exact Ht|]. by apply matches_end_empty.
  - (* a suffix: the domain set takes the old top-level domain *)
    assert (w2 = []) as -> by (inversion Hz; subst; [done | done | congruence]).
    inversion Hg as [| | | | | | | | | | ? ? ? ? ? Hg']; subst.
    apply matches_seq in Hg' as (wp2 & l7 & -> & Hp2 & Hg').
    apply matches_seq in Hg' as (wt2 & l8 & -> & Ht2 & Hg').
    inversion Hg'; subst.
    apply matches_class_repeat_1 in Hd as (Hd1 & Hd2 & _); [|done].
    apply matches_class_repeat_1 in Ht as (Ht1 & _ & _); [|simpl; lia].
    apply matches_class_repeat_1 in Ht2 as (Ht2a & Ht2b & Ht2c); [|simpl; lia].
    inversion Hp; subst.
    apply matches_seq. exists (wd ++ [ch] ++ wt), (wp2 ++ wt2 ++ []).
    split; [by rewrite !app_nil_r, <- !app_assoc|].
    split.
    { apply matches_class_repeat_2; [|rewrite !length_app; simpl; lia | done].
      apply Forall_app. split; [exact Hd1|].
      apply Forall_app. split.
      - constructor; [by apply dot_class_in_domain_class | constructor].
      - eapply Forall_impl; [exact Ht1|]. apply tld_class_in_domain_class. }
    apply matches_seq. exists wp2, (wt2 ++ []).
    split; [reflexivity|]. split; [inversion Hp2; subst; by constructor|].
    apply matches_seq. exists wt2, []. rewrite app_nil_r.
    split; [reflexivity|]. split; [|by apply matches_end_empty].
    apply matches_class_repeat_2; [exact Ht2a | lia | simpl in *; lia].
Qed.

(** * Accepted languages *)

(** ** Tools *)

(** A set and a predicate agree when they agree on every character. *)
Lemma charSet_check i cs (p : ascii -> bool) :
  forallb (fun c => Bool.eqb (charSetMatches i cs c) (p c)) allChars = true ->
  forall c, charSetMatches i cs c = p c.
Proof.
  intros H c. rewrite forallb_forall in H.
  apply Bool.eqb_prop, H, list_elem_of_In, elem_of_allChars.
Qed.

Ltac class_check := apply charSet_check; vm_compute; reflexivity.

Lemma matches_repeat_class i mn mx g cs (p : ascii -> bool) pos w rest :
  (forall c, charSetMatches i cs c = p c) ->
  withinMax mn mx ->
  (Matches i (RQuant mn mx g (RChar cs)) pos w rest
   <-> Forall (fun c => p c = true) w
       /\ mn <= length w /\ withinMax (length w) mx).
Proof.
  intros Hp Hwf. split.
  - intros H. apply matches_class_repeat_1 in H as (Hall & Hlo & Hhi); [|done].
    split; [|done]. eapply Forall_impl; [exact Hall|].
    intros c Hc. simpl in Hc. by rewrite <- Hp.
  - intros (Hall & Hlo & Hhi). apply matches_class_repeat_2; [|done..].
    eapply Forall_impl; [exact Hall|]. intros c Hc. simpl. by rewrite Hp.
Qed.

Lemma matches_exact_class i n g cs (p : ascii -> bool) pos w rest :
  (forall c, charSetMatches i cs c = p c) ->
  (Matches i (RQuant n (Some n) g (RChar cs)) pos w rest <-> allOf p n w).
Proof.
  intros Hp. rewrite (matches_repeat_class _ _ _ _ _ p) by (done || (simpl; lia)).
  unfold allOf. simpl. split; [intros (? & ? & ?) | intros [? ?]];
    repeat split; (done || lia).
Qed.

Lemma matches_class i cs (p : ascii -> bool) pos w rest :
  (forall c, charSetMatches i cs c = p c) ->
  (Matches i (RChar cs) pos w rest <-> exists c, w = [c] /\ p c = true).
Proof.
  intros Hp. split.
  - inversion 1; subst. eexists. split; [reflexivity|]. by rewrite <- Hp.
  - intros (c & -> & Hc). constructor. by rewrite Hp.
Qed.

Lemma matches_literal i cs (x : ascii) pos w rest :
  (forall c, charSetMatches i cs c = Ascii.eqb x c) ->
  (Matches i (RChar cs) pos w rest <-> w = [x]).
Proof.
  intros Hp. rewrite (matches_class _ _ _ _ _ _ Hp). split.
  - intros (c & -> & Hc). by apply Ascii.eqb_eq in Hc as ->.
  - intros ->. exists x. split; [done|]. apply Ascii.eqb_refl.
Qed.

Lemma matches_optional_literal i g cs (x : ascii) pos w rest :
  (forall c, charSetMatches i cs c = Ascii.eqb x c) ->
  (Matches i (RQuant 0 (Some 1) g (RChar cs)) pos w rest
   <-> w = [] \/ w = [x]).
Proof.
  intros Hp.
  rewrite (matches_repeat_class _ _ _ _ _ _ _ _ _ Hp) by (simpl; lia).
  simpl. split.
  - intros (Hall & _ & Hhi). destruct w as [|c [|c' w]]; [by left | | simpl in Hhi; lia].
    right. inversion Hall as [|? ? Hc _]; subst.
    by apply Ascii.eqb_eq in Hc as ->.
  - intros [->| ->]; (split; [|simpl; lia]); [constructor|].
    constructor; [apply Ascii.eqb_refl | constructor].
Qed.

(** Opens [testGenerated (Normal g) s = Some true] into a whole-string match
    of the parsed pattern, under the flag [i]. *)
Ltac open_pattern i :=
  cbn [testGenerated];
  match goal with
  | |- context [test ?g0 ?s] =>
      let g := fresh "g" in
      let r := fresh "r" in
      let Hr := fresh "Hr" in
      let Hr' := fresh "Hr'" in
      set (g := g0);
      destruct (parsePattern (pattern g)) as [r|] eqn:Hr;
        [|vm_compute in Hr; discriminate];
      pose proof Hr as Hr'; vm_compute in Hr'; injection Hr' as <-;
      rewrite (test_whole g _ i s Hr eq_refl eq_refl eq_refl);
      clear Hr g
  end.

Ltac peel H w Hp :=
  let l := fresh "l" in
  apply matches_seq in H as (w & l & -> & Hp & H).

Ltac peel_start H :=
  let w := fresh "w" in
  let l := fresh "l" in
  let H0 := fresh "H0" in
  apply matches_seq in H as (w & l & -> & H0 & H);
  apply matches_start in H0 as [_ ->].

Ltac peel_digits H n w Hn :=
  peel H w Hn; apply (matches_exact_class _ n _ _ isDigit) in Hn; [|class_check].

Ltac peel_literal H x :=
  let w := fresh "w" in
  let Hp := fresh "Hp" in
  peel H w Hp; apply (matches_literal _ _ x) in Hp as ->; [|class_check].

Ltac put_start :=
  apply matches_seq; eexists [], _;
  split; [reflexivity|]; split; [by apply matches_start|].

Ltac put_digits n :=
  apply matches_seq; eexists _, _;
  split; [reflexivity|];
  split; [apply (matches_exact_class _ n _ _ isDigit); [class_check | eassumption]|].

Ltac put_literal x :=
  apply matches_seq; eexists [x], _;
  split; [reflexivity|];
  split; [apply (matches_literal _ _ x); [class_check | reflexivity]|].

(** ** CEP *)

(** The CEP pattern accepts exactly five digits, a hyphen and three
    digits; when [allowOptionalSymbols] is set it also accepts the eight
    digits without the hyphen, and nothing else in either case. *)
Lemma cep_language (o : Options) (s : string) :
  testGenerated (generateCEPRegex (ArgObject o)) s = Some true
  <-> exists a b,
        allOf isDigit 5 a /\ allOf isDigit 3 b
        /\ (list_ascii_of_string s = a ++ "-"%char :: b
            \/ (criterionSet o "allowOptionalSymbols" = true
                /\ list_ascii_of_string s = a ++ b)).
Proof.
  rewrite generateCEPRegex_record. unfold criterionSet.
  destruct (ToBoolean _).
  - open_pattern false. generalize (list_ascii_of_string s) as l. clear s.
    intros l. split.
    + intros H. peel_start H. peel_digits H 5 a Ha.
      peel H sep Hs.
      apply (matches_optional_literal _ _ _ "-"%char) in Hs; [|class_check].
      peel_digits H 3 b Hb. apply matches_end_empty in H as [-> _].
      exists a, b. split; [exact Ha|]. split; [exact Hb|].
      rewrite app_nil_r. destruct Hs as [->| ->]; [right | left]; done.
    + intros (a & b & Ha & Hb & Hl).
      assert (exists sep, l = a ++ sep ++ b ++ [] /\ (sep = [] \/ sep = ["-"%char]))
        as (sep & -> & Hsep).
      { destruct Hl as [->|[_ ->]]; [exists ["-"%char] | exists []];
          rewrite app_nil_r; auto. }
      put_start. put_digits 5.
      apply matches_seq. exists sep, (b ++ []). split; [reflexivity|].
      split; [apply (matches_optional_literal _ _ _ "-"%char); [class_check | done]|].
      put_digits 3. by apply matches_end_empty.
  - open_pattern false. generalize (list_ascii_of_string s) as l. clear s.
    intros l. split.
    + intros H. peel_start H. peel_digits H 5 a Ha. peel_literal H "-"%char.
      peel_digits H 3 b Hb. apply matches_end_empty in H as [-> _].
      exists a, b. split; [exact Ha|]. split; [exact Hb|].
      rewrite app_nil_r. by left.
    + intros (a & b & Ha & Hb & [->|[? _]]); [|discriminate].
      rewrite <- (app_nil_r b).
      put_start. put_digits 5. put_literal "-"%char. put_digits 3.
      by apply matches_end_empty.
Qed.

(** ** CPF *)

Ltac peel_optional H x w Hs :=
  peel H w Hs; apply (matches_optional_literal _ _ _ x) in Hs; [|class_check].

Ltac put_optional x :=
  apply matches_seq; eexists _, _;
  split; [reflexivity|];
  split; [apply (matches_optional_literal _ _ _ x); [class_check | eassumption]|].

(** The CPF pattern accepts exactly the digit groups 3, 3, 3, 2 written
    [ddd.ddd.ddd-dd]; when [allowOptionalSymbols] is set each of the three
    separators may be left out on its own, so mixed forms are accepted too. *)
Lemma cpf_language (o : Options) (s : string) :
  testGenerated (generateCPFRegex (ArgObject o)) s = Some true
  <-> exists a b c d,
        allOf isDigit 3 a /\ allOf isDigit 3 b /\ allOf isDigit 3 c
        /\ allOf isDigit 2 d
        /\ (list_ascii_of_string s
            = a ++ "."%char :: b ++ "."%char :: c ++ "-"%char :: d
            \/ (criterionSet o "allowOptionalSymbols" = true
                /\ exists s1 s2 s3,
                     (s1 = [] \/ s1 = ["."%char])
                     /\ (s2 = [] \/ s2 = ["."%char])
                     /\ (s3 = [] \/ s3 = ["-"%char])
                     /\ list_ascii_of_string s
                        = a ++ s1 ++ b ++ s2 ++ c ++ s3 ++ d)).
Proof.
  rewrite generateCPFRegex_record. unfold criterionSet.
  destruct (ToBoolean _).
  - open_pattern false. generalize (list_ascii_of_string s) as l. clear s.
    intros l. split.
    + intros H. peel_start H.
      peel_digits H 3 a Ha. peel_optional H "."%char s1 Hs1.
      peel_digits H 3 b Hb. peel_optional H "."%char s2 Hs2.
      peel_digits H 3 c Hc. peel_optional H "-"%char s3 Hs3.
      peel_digits H 2 d Hd. apply matches_end_empty in H as [-> _].
      exists a, b, c, d. do 4 (split; [assumption|]).
      right. split; [reflexivity|]. exists s1, s2, s3.
      do 3 (split; [assumption|]). by rewrite app_nil_r.
    + intros (a & b & c & d & Ha & Hb & Hc & Hd & Hl).
      assert (exists s1 s2 s3,
                 (s1 = [] \/ s1 = ["."%char])
                 /\ (s2 = [] \/ s2 = ["."%char])
                 /\ (s3 = [] \/ s3 = ["-"%char])
                 /\ l = a ++ s1 ++ b ++ s2 ++ c ++ s3 ++ d ++ [])
        as (s1 & s2 & s3 & Hs1 & Hs2 & Hs3 & ->).
      { destruct Hl as [->|(_ & s1 & s2 & s3 & Hs1 & Hs2 & Hs3 & ->)].
        - exists ["."%char], ["."%char], ["-"%char].
          rewrite app_nil_r. auto 6.
        - exists s1, s2, s3. rewrite app_nil_r. auto. }
      put_start. put_digits 3. put_optional "."%char.
      put_digits 3. put_optional "."%char.
      put_digits 3. put_optional "-"%char.
      put_digits 2. by apply matches_end_empty.
  - open_pattern false. generalize (list_ascii_of_string s) as l. clear s.
    intros l. split.
    + intros H. peel_start H.
      peel_digits H 3 a Ha. peel_literal H "."%char.
      peel_digits H 3 b Hb. peel_literal H "."%char.
      peel_digits H 3 c Hc. peel_literal H "-"%char.
      peel_digits H 2 d Hd. apply matches_end_empty in H as [-> _].
      exists a, b, c, d. do 4 (split; [assumption|]).
      left. by rewrite app_nil_r.
    + intros (a & b & c & d & Ha & Hb & Hc & Hd & [->|[? _]]); [|discriminate].
      rewrite <- (app_nil_r d).
      put_start. put_digits 3. put_literal "."%char.
      put_digits 3. put_literal "."%char.
      put_digits 3. put_literal "-"%char.
      put_digits 2. by apply matches_end_empty.
Qed.

(** ** UUID *)

Ltac peel_exact H p n w Hn :=
  peel H w Hn; apply (matches_exact_class _ n _ _ p) in Hn; [|class_check].

Ltac put_exact p n :=
  apply matches_seq; eexists _, _;
  split; [reflexivity|];
  split; [apply (matches_exact_class _ n _ _ p); [class_check | eassumption]|].

Lemma generateUUIDRegex_any (arg : OptionsArg) :
  generateUUIDRegex arg
  = Normal
      {| pattern :=
           anchor "[0-9a-f]{8}-[0-9a-f]{4}-4[0-9a-f]{3}-[89ab][0-9a-f]{3}-[0-9a-f]{12}";
         flags := "i" |}.
Proof. reflexivity. Qed.

(** The UUID pattern accepts exactly the strings made of hexadecimal
    groups of 8, 4, 4, 4 and 12 characters joined by hyphens, in either
    case, whose third group starts with 4 and whose fourth group starts
    with one of 8, 9, a, b, A, B; the argument plays no part. *)
Lemma uuid_language (arg : OptionsArg) (s : string) :
  testGenerated (generateUUIDRegex arg) s = Some true
  <-> exists a b c v d e,
        allOf isHexDigit 8 a /\ allOf isHexDigit 4 b /\ allOf isHexDigit 3 c
        /\ isVariantNibble v = true
        /\ allOf isHexDigit 3 d /\ allOf isHexDigit 12 e
        /\ list_ascii_of_string s
           = a ++ "-"%char :: b ++ "-"%char :: "4"%char :: c
               ++ "-"%char :: v :: d ++ "-"%char :: e.
Proof.
  rewrite generateUUIDRegex_any. open_pattern true.
  generalize (list_ascii_of_string s) as l. clear s. intros l. split.
  - intros H. peel_start H.
    peel_exact H isHexDigit 8 a Ha. peel_literal H "-"%char.
    peel_exact H isHexDigit 4 b Hb. peel_literal H "-"%char.
    peel_literal H "4"%char. peel_exact H isHexDigit 3 c Hc.
    peel_literal H "-"%char.
    peel H wv Hv. apply (matches_class _ _ isVariantNibble) in Hv as (v & -> & Hv);
      [|class_check].
    peel_exact H isHexDigit 3 d Hd. peel_literal H "-"%char.
    peel_exact H isHexDigit 12 e He. apply matches_end_empty in H as [-> _].
    exists a, b, c, v, d, e. do 6 (split; [assumption|]).
    by rewrite app_nil_r.
  - intros (a & b & c & v & d & e & Ha & Hb & Hc & Hv & Hd & He & ->).
    rewrite <- (app_nil_r e).
    put_start. put_exact isHexDigit 8. put_literal "-"%char.
    put_exact isHexDigit 4. put_literal "-"%char.
    put_literal "4"%char. put_exact isHexDigit 3. put_literal "-"%char.
    apply matches_seq. exists [v], (d ++ "-"%char :: e ++ []).
    split; [reflexivity|].
    split; [apply (matches_class _ _ isVariantNibble); [class_check | eauto]|].
    put_exact isHexDigit 3. put_literal "-"%char.
    put_exact isHexDigit 12. by apply matches_end_empty.
Qed.

(** ** E-mail *)

Lemma email_patterns_equivalent (s : string) :
  test {| pattern :=
            anchor "[a-zA-Z0-9._%+-]+@[a-zA-Z0-9.-]+\.[a-zA-Z]{2,63}(\.[a-zA-Z]{2})?";
          flags := "i" |} s = Some true
  <-> test {| pattern := anchor "[a-zA-Z0-9._%+-]+@[a-zA-Z0-9.-]+\.[a-zA-Z]{2,63}";
              flags := "i" |} s = Some true.
Proof.
  split.
  - pose proof (allowSubdomains_adds_nothing ∅ s) as H.
    rewrite !generateEmailRegex_record, !readProp_insert_eq in H. exact H.
  - eapply test_relaxes; vm_compute; reflexivity.
Qed.

Lemma email_any_record (o : Options) (s : string) :
  testGenerated (generateEmailRegex (ArgObject o)) s = Some true
  <-> testGenerated (generateEmailRegex (ArgObject ∅)) s = Some true.
Proof.
  rewrite !generateEmailRegex_record, readProp_empty.
  destruct (ToBoolean (readProp o "allowSubdomains"%string));
    [apply email_patterns_equivalent | reflexivity].
Qed.

(** With any options the e-mail pattern accepts exactly
    [local@domain.tld] where [local] is a non-empty run of letters, digits
    and [._%+-], [domain] a non-empty run of letters, digits, dots and
    hyphens, and [tld] 2 to 63 letters; nothing constrains where the dots
    and hyphens stand. *)
Lemma email_language (o : Options) (s : string) :
  testGenerated (generateEmailRegex (ArgObject o)) s = Some true
  <-> exists loc dmn tld,
        loc <> [] /\ Forall (fun c => isLocalChar c = true) loc
        /\ dmn <> [] /\ Forall (fun c => isDomainChar c = true) dmn
        /\ 2 <= length tld <= 63 /\ Forall (fun c => isLetter c = true) tld
        /\ list_ascii_of_string s = loc ++ "@"%char :: dmn ++ "."%char :: tld.
Proof.
  rewrite email_any_record, generateEmailRegex_record, readProp_empty.
  cbn [ToBoolean]. cbv iota. open_pattern true.
  generalize (list_ascii_of_string s) as l. clear s. intros l. split.
  - intros H. peel_start H.
    peel H loc Hloc.
    apply (matches_repeat_class _ _ _ _ _ isLocalChar) in Hloc
      as (Hloc & Hn & _); [|class_check | done].
    peel_literal H "@"%char.
    peel H dmn Hdom.
    apply (matches_repeat_class _ _ _ _ _ isDomainChar) in Hdom
      as (Hdom & Hm & _); [|class_check | done].
    peel_literal H "."%char.
    peel H tld Htld.
    apply (matches_repeat_class _ _ _ _ _ isLetter) in Htld
      as (Htld & Hlo & Hhi); [|class_check | simpl; lia].
    apply matches_end_empty in H as [-> _].
    exists loc, dmn, tld. simpl in Hhi.
    split; [intros ->; simpl in Hn; lia|]. split; [done|].
    split; [intros ->; simpl in Hm; lia|]. split; [done|].
    split; [lia|]. split; [done|]. by rewrite app_nil_r.
  - intros (loc & dmn & tld & Hn & Hloc & Hm & Hdom & Hlen & Htld & ->).
    rewrite <- (app_nil_r tld). put_start.
    apply matches_seq. eexists loc, _. split; [reflexivity|].
    split; [apply (matches_repeat_class _ _ _ _ _ isLocalChar);
            [class_check | done |]|].
    { split; [done|]. split; [|done]. destruct loc; [done | simpl; lia]. }
    put_literal "@"%char.
    apply matches_seq. eexists dmn, _. split; [reflexivity|].
    split; [apply (matches_repeat_class _ _ _ _ _ isDomainChar);
            [class_check | done |]|].
    { split; [done|]. split; [|done]. destruct dmn; [done | simpl; lia]. }
    put_literal "."%char.
    apply matches_seq. eexists tld, _. split; [reflexivity|].
    split; [apply (matches_repeat_class _ _ _ _ _ isLetter);
            [class_check | simpl; lia |]|].
    { split; [done|]. simpl. lia. }
    by apply matches_end_empty.
Qed.

(** ** Letter case *)

Lemma all_chars_check (P : ascii -> bool) :
  forallb P allChars = true -> forall c, P c = true.
Proof.
  intros H c. rewrite forallb_forall in H.
  apply H, list_elem_of_In, elem_of_allChars.
Qed.

Lemma toLower_toUpper (c : ascii) : toLower (toUpper c) = toLower c.
Proof.
  apply Ascii.eqb_eq.
  revert c. apply all_chars_check. vm_compute. reflexivity.
Qed.

Lemma toUpper_toUpper (c : ascii) : toUpper (toUpper c) = toUpper c.
Proof.
  apply Ascii.eqb_eq.
  revert c. apply all_chars_check. vm_compute. reflexivity.
Qed.

Lemma charSetMatches_case cs (a b : ascii) :
  toUpper a = toUpper b ->
  charSetMatches true cs a = charSetMatches true cs b.
Proof.
  intros H. unfold charSetMatches.
  by rewrite <- (toLower_toUpper a), <- (toLower_toUpper b), H.
Qed.

Lemma sameUpToCase_sym (w w' : list ascii) :
  sameUpToCase w w' -> sameUpToCase w' w.
Proof.
  unfold sameUpToCase. intros H. apply Forall2_flip.
  eapply Forall2_impl; [exact H|]. done.
Qed.

Lemma sameUpToCase_map_toUpper (w : list ascii) :
  sameUpToCase w (toUpper <$> w).
Proof.
  unfold sameUpToCase. induction w as [|c w IH]; simpl; constructor; auto.
  by rewrite toUpper_toUpper.
Qed.

(** With [ignoreCase], a match stays a match when letters change case. *)
Lemma matches_case r pos w rest :
  Matches true r pos w rest ->
  forall w' rest',
    sameUpToCase w w' -> sameUpToCase rest rest' ->
    Matches true r pos w' rest'.
Proof.
  unfold sameUpToCase.
  induction 1 as [pos rest | cs ch pos rest Hch | rest | pos
                 | r1 r2 pos w1 w2 rest _ IH1 _ IH2
                 | r1 r2 pos w rest _ IH | r1 r2 pos w rest _ IH
                 | mn g r pos rest | mx g r pos rest
                 | mn mx g r pos w1 w2 rest Hmx _ IH1 _ IH2
                 | cap r pos w rest _ IH];
    intros w' rest' Hw Hrest.
  - apply Forall2_nil_inv_l in Hw as ->. constructor.
  - apply Forall2_cons_inv_l in Hw as (ch' & t & Hc & Ht & ->).
    apply Forall2_nil_inv_l in Ht as ->. constructor.
    by rewrite <- (charSetMatches_case cs ch ch').
  - apply Forall2_nil_inv_l in Hw as ->. constructor.
  - apply Forall2_nil_inv_l in Hw as ->.
    apply Forall2_nil_inv_l in Hrest as ->. constructor.
  - apply Forall2_app_inv_l in Hw as (w1' & w2' & H1 & H2 & ->).
    apply MSeq.
    + apply IH1; [done | by apply Forall2_app].
    + rewrite <- (Forall2_length _ _ _ H1). by apply IH2.
  - apply MAltL. by apply IH.
  - apply MAltR. by apply IH.
  - apply Forall2_nil_inv_l in Hw as ->. constructor.
  - apply Forall2_nil_inv_l in Hw as ->. constructor.
  - apply Forall2_app_inv_l in Hw as (w1' & w2' & H1 & H2 & ->).
    apply MQuantStep; [done | |].
    + apply IH1; [done | by apply Forall2_app].
    + rewrite <- (Forall2_length _ _ _ H1). by apply IH2.
  - apply MGroup. by apply IH.
Qed.

Lemma test_case g r (s s' : string) :
  parsePattern (pattern g) = Some r ->
  parseFlags (flags g) = Some true ->
  anchoredStart r = true ->
  anchoredEnd r = true ->
  sameUpToCase (list_ascii_of_string s) (list_ascii_of_string s') ->
  test g s = Some true -> test g s' = Some true.
Proof.
  intros Hr Hi Hs He Hsame.
  rewrite !(test_whole g r true _ Hr Hi Hs He). intros H.
  eapply matches_case; [exact H | exact Hsame | constructor].
Qed.

(** ** Lengths *)

Lemma decimal_length_255 (n : nat) :
  n <= 255 -> 1 <= length (decimal n) <= 3.
Proof.
  intros Hn.
  assert (H : Forall (fun w => 1 <= length w <= 3) (decimalsUpTo 255)).
  { apply (bool_decide_unpack _). vm_compute. exact I. }
  rewrite Forall_forall in H. apply H, elem_of_decimalsUpTo. eauto.
Qed.

Lemma decimal_length_32 (n : nat) :
  n <= 32 -> 1 <= length (decimal n) <= 2.
Proof.
  intros Hn.
  assert (H : Forall (fun w => 1 <= length w <= 2) (decimalsUpTo 32)).
  { apply (bool_decide_unpack _). vm_compute. exact I. }
  rewrite Forall_forall in H. apply H, elem_of_decimalsUpTo. eauto.
Qed.

Lemma dottedQuad_length (a b c d : nat) :
  a <= 255 -> b <= 255 -> c <= 255 -> d <= 255 ->
  7 <= length (dottedQuad a b c d) <= 15.
Proof.
  intros Ha Hb Hc Hd. unfold dottedQuad.
  apply decimal_length_255 in Ha, Hb, Hc, Hd.
  repeat (rewrite length_app || rewrite length_cons). lia.
Qed.

Lemma ipv4_language (o : Options) (s : string) :
  testGenerated (generateIPv4Regex (ArgObject o)) s = Some true
  <-> exists a b c d,
        a <= 255 /\ b <= 255 /\ c <= 255 /\ d <= 255
        /\ (list_ascii_of_string s = dottedQuad a b c d
            \/ (criterionSet o "allowCIDR" = true
                /\ exists p, p <= 32
                     /\ list_ascii_of_string s
                        = dottedQuad a b c d ++ "/"%char :: decimal p)).
Proof.
  unfold criterionSet.
  destruct (ToBoolean (readProp o "allowCIDR"%string)) eqn:E.
  - replace (generateIPv4Regex (ArgObject o))
      with (generateIPv4Regex (ArgObject {[ "allowCIDR"%string := VBool true ]}))
      by (by rewrite !generateIPv4Regex_record, readProp_singleton_eq, E).
    rewrite ipv4_cidr_language. split.
    + intros (a & b & c & d & Ha & Hb & Hc & Hd & H).
      exists a, b, c, d. intuition.
    + intros (a & b & c & d & Ha & Hb & Hc & Hd & H).
      exists a, b, c, d. intuition.
  - replace (generateIPv4Regex (ArgObject o))
      with (generateIPv4Regex (ArgObject ∅))
      by (by rewrite !generateIPv4Regex_record, readProp_empty, E).
    rewrite ipv4_default_language. split.
    + intros (a & b & c & d & Ha & Hb & Hc & Hd & H).
      exists a, b, c, d. intuition.
    + intros (a & b & c & d & Ha & Hb & Hc & Hd & [H|[? _]]); [|discriminate].
      exists a, b, c, d. intuition.
Qed.

(** ** Digits *)

Lemma filter_digits_all (w : list ascii) :
  Forall (fun c => isDigit c = true) w -> List.filter isDigit w = w.
Proof.
  induction 1 as [|c w Hc _ IH]; simpl; [done|]. by rewrite Hc, IH.
Qed.

Lemma filter_digits_separator (x : ascii) (w : list ascii) :
  isDigit x = false -> w = [] \/ w = [x] -> List.filter isDigit w = [].
Proof. intros Hx [->| ->]; simpl; [done|]. by rewrite Hx. Qed.

Lemma digits_or_separator (P : ascii -> Prop) (w : list ascii) :
  (forall c, isDigit c = true -> P c) ->
  Forall (fun c => isDigit c = true) w -> Forall P w.
Proof. intros HP H. eapply Forall_impl; [exact H | exact HP]. Qed.

(** ** Extensions of an accepted string *)

Lemma list_ascii_of_string_append (s t : string) :
  list_ascii_of_string (s +:+ t)
  = list_ascii_of_string s ++ list_ascii_of_string t.
Proof. induction s as [|c s IH]; simpl; [done|]. by rewrite IH. Qed.

Lemma list_ascii_of_string_nonempty (s : string) :
  s <> ""%string -> list_ascii_of_string s <> [].
Proof. by destruct s. Qed.

(** Appending a string that ends in a digit adds a digit. *)
Lemma digits_grow_append (l e : list ascii) (c : ascii) :
  e <> [] -> last (l ++ e) = Some c -> isDigit c = true ->
  length (List.filter isDigit l) < length (List.filter isDigit (l ++ e)).
Proof.
  intros He Hlast Hc. destruct (exists_last He) as (e' & y & ->).
  rewrite app_assoc, last_snoc in Hlast. injection Hlast as ->.
  rewrite !List.filter_app, !length_app. simpl. rewrite Hc. simpl. lia.
Qed.

(** Prepending a string that starts with a digit adds a digit. *)
Lemma digits_grow_prepend (l e : list ascii) (c : ascii) :
  e <> [] -> head (e ++ l) = Some c -> isDigit c = true ->
  length (List.filter isDigit l) < length (List.filter isDigit (e ++ l)).
Proof.
  intros He Hhead Hc. destruct e as [|y e]; [done|].
  simpl in Hhead. injection Hhead as ->.
  simpl. rewrite Hc. simpl. rewrite List.filter_app, length_app. lia.
Qed.

(** A string of a language whose words all hold [n] digits and start and
    end with a digit has no proper extension in that language. *)
Lemma no_extension_by_digits (L : string -> Prop) (n : nat) :
  (forall s, L s ->
     length (List.filter isDigit (list_ascii_of_string s)) = n
     /\ (exists c, head (list_ascii_of_string s) = Some c /\ isDigit c = true)
     /\ (exists c, last (list_ascii_of_string s) = Some c /\ isDigit c = true)) ->
  forall s e, L s -> e <> ""%string -> ~ L (s +:+ e) /\ ~ L (e +:+ s).
Proof.
  intros HL s e Hs He. apply list_ascii_of_string_nonempty in He.
  destruct (HL s Hs) as (Hn & _ & _). split; intros Hx.
  - destruct (HL _ Hx) as (Hn' & _ & c & Hlast & Hc).
    rewrite list_ascii_of_string_append in Hn', Hlast.
    pose proof (digits_grow_append _ _ c He Hlast Hc). lia.
  - destruct (HL _ Hx) as (Hn' & (c & Hhead & Hc) & _).
    rewrite list_ascii_of_string_append in Hn', Hhead.
    pose proof (digits_grow_prepend _ _ c He Hhead Hc). lia.
Qed.

Lemma cpf_digit_ends (o : Options) (s : string) :
  testGenerated (generateCPFRegex (ArgObject o)) s = Some true ->
  length (List.filter isDigit (list_ascii_of_string s)) = 11
  /\ (exists c, head (list_ascii_of_string s) = Some c /\ isDigit c = true)
  /\ (exists c, last (list_ascii_of_string s) = Some c /\ isDigit c = true).
Proof.
  intros H. apply cpf_language in H
    as (a & b & c & d & [Ha Da] & [Hb Db] & [Hc Dc] & [Hd Dd] & Hl).
  assert (exists s1 s2 s3,
             (s1 = [] \/ s1 = ["."%char]) /\ (s2 = [] \/ s2 = ["."%char])
             /\ (s3 = [] \/ s3 = ["-"%char])
             /\ list_ascii_of_string s = a ++ s1 ++ b ++ s2 ++ c ++ s3 ++ d)
    as (s1 & s2 & s3 & Hs1 & Hs2 & Hs3 & ->).
  { destruct Hl as [->|(_ & s1 & s2 & s3 & H)]; [|by exists s1, s2, s3].
    exists ["."%char], ["."%char], ["-"%char]. auto. }
  split; [|split].
  - rewrite !List.filter_app.
    rewrite (filter_digits_all a), (filter_digits_all b),
      (filter_digits_all c), (filter_digits_all d) by done.
    rewrite (filter_digits_separator "."%char s1),
      (filter_digits_separator "."%char s2),
      (filter_digits_separator "-"%char s3) by done.
    rewrite !length_app. simpl. lia.
  - destruct a as [|x a]; [done|]. exists x. split; [done|].
    by inversion Da.
  - destruct d as [|y [|z [|? ?]]]; try done.
    exists z. rewrite !app_assoc.
    change [y; z] with ([y] ++ [z]). rewrite app_assoc, last_snoc.
    split; [done|]. inversion Dd as [|? ? _ Dz]; subst. by inversion Dz.
Qed.

Lemma cep_digit_ends (o : Options) (s : string) :
  testGenerated (generateCEPRegex (ArgObject o)) s = Some true ->
  length (List.filter isDigit (list_ascii_of_string s)) = 8
  /\ (exists c, head (list_ascii_of_string s) = Some c /\ isDigit c = true)
  /\ (exists c, last (list_ascii_of_string s) = Some c /\ isDigit c = true).
Proof.
  intros H. apply cep_language in H as (a & b & [Ha Da] & [Hb Db] & Hl).
  assert (exists s1,
             (s1 = [] \/ s1 = ["-"%char])
             /\ list_ascii_of_string s = a ++ s1 ++ b)
    as (s1 & Hs1 & ->).
  { destruct Hl as [->|(_ & ->)]; [exists ["-"%char] | exists []]; auto. }
  split; [|split].
  - rewrite !List.filter_app.
    rewrite (filter_digits_all a), (filter_digits_all b) by done.
    rewrite (filter_digits_separator "-"%char s1) by done.
    rewrite !length_app. simpl. lia.
  - destruct a as [|x a]; [done|]. exists x. split; [done|].
    by inversion Da.
  - destruct b as [|x [|y [|z [|? ?]]]]; try done.
    exists z. rewrite !app_assoc.
    change [x; y; z] with ([x; y] ++ [z]). rewrite app_assoc, last_snoc.
    split; [done|]. inversion Db as [|? ? _ Dy]; subst.
    inversion Dy as [|? ? _ Dz]; subst. by inversion Dz.
Qed.

Lemma uuid_length (arg : OptionsArg) (s : string) :
  testGenerated (generateUUIDRegex arg) s = Some true -> String.length s = 36.
Proof.
  intros H. rewrite <- length_list_ascii_of_string.
  apply uuid_language in H
    as (a & b & c & v & d & e & [Ha _] & [Hb _] & [Hc _] & _ & [Hd _]
        & [He _] & ->).
  repeat (rewrite length_app || rewrite length_cons). lia.
Qed.

(** A generated pattern compiles, so [test] answers yes or no. *)
Lemma test_decided g r i (s : string) :
  parsePattern (pattern g) = Some r ->
  parseFlags (flags g) = Some i ->
  test g s <> Some true -> test g s = Some false.
Proof.
  intros Hr Hi. rewrite (test_compiled _ _ _ _ Hr Hi).
  by destruct (regExpTest i r _).
Qed.

Lemma cpf_decided (o : Options) (s : string) :
  testGenerated (generateCPFRegex (ArgObject o)) s <> Some true ->
  testGenerated (generateCPFRegex (ArgObject o)) s = Some false.
Proof.
  rewrite generateCPFRegex_record. cbn [testGenerated].
  destruct (ToBoolean _); eapply test_decided; vm_compute; reflexivity.
Qed.

Lemma cep_decided (o : Options) (s : string) :
  testGenerated (generateCEPRegex (ArgObject o)) s <> Some true ->
  testGenerated (generateCEPRegex (ArgObject o)) s = Some false.
Proof.
  rewrite generateCEPRegex_record. cbn [testGenerated].
  destruct (ToBoolean _); eapply test_decided; vm_compute; reflexivity.
Qed.

Lemma uuid_decided (arg : OptionsArg) (s : string) :
  testGenerated (generateUUIDRegex arg) s <> Some true ->
  testGenerated (generateUUIDRegex arg) s = Some false.
Proof.
  rewrite generateUUIDRegex_any. cbn [testGenerated].
  eapply test_decided; vm_compute; reflexivity.
Qed.

Lemma cpf_no_extension (o : Options) (s e : string) :
  testGenerated (generateCPFRegex (ArgObject o)) s = Some true ->
  e <> ""%string ->
  testGenerated (generateCPFRegex (ArgObject o)) (s +:+ e) = Some false
  /\ testGenerated (generateCPFRegex (ArgObject o)) (e +:+ s) = Some false.
Proof.
  intros Hs He.
  destruct (no_extension_by_digits _ 11 (cpf_digit_ends o) s e Hs He).
  split; by apply cpf_decided.
Qed.

Lemma cep_no_extension (o : Options) (s e : string) :
  testGenerated (generateCEPRegex (ArgObject o)) s = Some true ->
  e <> ""%string ->
  testGenerated (generateCEPRegex (ArgObject o)) (s +:+ e) = Some false
  /\ testGenerated (generateCEPRegex (ArgObject o)) (e +:+ s) = Some false.
Proof.
  intros Hs He.
  destruct (no_extension_by_digits _ 8 (cep_digit_ends o) s e Hs He).
  split; by apply cep_decided.
Qed.

Lemma length_append (s t : string) :
  String.length (s +:+ t) = String.length s + String.length t.
Proof. induction s as [|c s IH]; simpl; [done|]. by rewrite IH. Qed.

Lemma uuid_no_extension (arg : OptionsArg) (s e : string) :
  testGenerated (generateUUIDRegex arg) s = Some true ->
  e <> ""%string ->
  testGenerated (generateUUIDRegex arg) (s +:+ e) = Some false
  /\ testGenerated (generateUUIDRegex arg) (e +:+ s) = Some false.
Proof.
  intros Hs He. apply uuid_length in Hs.
  assert (0 < String.length e) by (destruct e; [done | simpl; lia]).
  split; apply uuid_decided; intros Hx; apply uuid_length in Hx;
    rewrite length_append in Hx; lia.
Qed.

(** ** Characters outside ASCII *)

Lemma ascii_only (p : ascii -> bool) :
  forallb (fun c => implb (p c) (nat_of_ascii c <? 128)%nat) allChars = true ->
  forall c, p c = true -> nat_of_ascii c < 128.
Proof.
  intros H c Hc. apply all_chars_check with (c := c) in H.
  rewrite Hc in H. simpl in H. by apply Nat.ltb_lt.
Qed.

Lemma email_ascii (o : Options) (s : string) :
  testGenerated (generateEmailRegex (ArgObject o)) s = Some true ->
  Forall (fun c => nat_of_ascii c < 128) (list_ascii_of_string s).
Proof.
  intros H. apply email_language in H
    as (loc & dmn & tld & _ & Hloc & _ & Hdmn & _ & Htld & ->).
  apply Forall_app. split.
  { eapply Forall_impl; [exact Hloc|]. apply ascii_only. vm_compute. reflexivity. }
  constructor; [vm_compute; lia|]. apply Forall_app. split.
  { eapply Forall_impl; [exact Hdmn|]. apply ascii_only. vm_compute. reflexivity. }
  constructor; [vm_compute; lia|].
  eapply Forall_impl; [exact Htld|]. apply ascii_only. vm_compute. reflexivity.
Qed.

Lemma uuid_ascii (arg : OptionsArg) (s : string) :
  testGenerated (generateUUIDRegex arg) s = Some true ->
  Forall (fun c => nat_of_ascii c < 128) (list_ascii_of_string s).
Proof.
  intros H. apply uuid_language in H
    as (a & b & c & v & d & e & [_ Ha] & [_ Hb] & [_ Hc] & Hv & [_ Hd]
        & [_ He] & ->).
  assert (Hhex : forall w, Forall (fun c => isHexDigit c = true) w ->
                           Forall (fun c => nat_of_ascii c < 128) w).
  { intros w Hw. eapply Forall_impl; [exact Hw|].
    apply ascii_only. vm_compute. reflexivity. }
  assert (Hvar : nat_of_ascii v < 128).
  { revert Hv. apply ascii_only. vm_compute. reflexivity. }
  repeat first
    [ apply Forall_app; split; [by apply Hhex|]
    | constructor; [first [exact Hvar | vm_compute; lia]|] ].
  by apply Hhex.
Qed.

(** * Properties of the generators and the registry *)

(** ** C1 *)

(** C1, as stated, fails for cpf: the empty record yields the strict
    pattern, the declared default ([allowOptionalSymbols = true]) the
    relaxed one. *)
Lemma C1_cpf_defaults_disagree :
  exists d,
    lookupCategory "cpf" = Some d
    /\ generator d (ArgObject ∅)
       = Normal {| pattern := "^\d{3}\.\d{3}\.\d{3}-\d{2}$"; flags := "" |}
    /\ generator d (ArgObject (declaredDefaults d))
       = Normal {| pattern := "^\d{3}\.?\d{3}\.?\d{3}-?\d{2}$"; flags := "" |}
    /\ generator d (ArgObject ∅)
       <> generator d (ArgObject (declaredDefaults d)).
Proof.
  eexists. split; [reflexivity|].
  repeat split; try (vm_compute; reflexivity).
  vm_compute. discriminate.
Qed.

(** C1 (amended): for every registered category, generating with an
    empty options record does not raise and returns the same result as
    generating with every declared criterion set to false; that result is
    the one for the registry's declared defaults exactly for the categories
    other than cpf and cep. *)
Theorem C1_empty_options_baseline key d :
  lookupCategory key = Some d ->
  exists g,
    generator d (ArgObject ∅) = Normal g
    /\ generator d (ArgObject (declaredAllFalse d)) = Normal g
    /\ (generator d (ArgObject (declaredDefaults d)) = Normal g
        <-> key <> "cpf"%string /\ key <> "cep"%string).
Proof.
  intros Hin. apply lookupCategory_In in Hin. simpl in Hin.
  destruct Hin
    as [[= <- <-]|[[= <- <-]|[[= <- <-]|[[= <- <-]|[[= <- <-]|[]]]]]];
    (eexists; split; [reflexivity|]; split; [vm_compute; reflexivity|]);
    (split; [intros H | intros [H1 H2]]);
    try (split; discriminate); try (vm_compute; reflexivity);
    try (vm_compute in H; discriminate); congruence.
Qed.

Lemma C1_empty_options_baseline_witness :
  exists g,
    generateCEPRegex (ArgObject ∅) = Normal g
    /\ generateCEPRegex
         (ArgObject (<["allowOptionalSymbols"%string := VBool false]> ∅))
       = Normal g.
Proof.
  destruct (C1_empty_options_baseline "cep" _ eq_refl) as (g & H1 & H2 & _).
  exists g. split; [exact H1 | exact H2].
Defined.

(** ** C2 *)

(** C2 (the code at the failing input): with default options the email
    pattern accepts "user@example.com", and it accepts
    "user@example.com.br" as well, because the domain class holds the
    dot. *)
Theorem C2_email_default_accepts_com_br :
  testGenerated (generateEmailRegex ArgUndefined) "user@example.com" = Some true
  /\ testGenerated (generateEmailRegex ArgUndefined) "user@example.com.br" = Some true
  /\ testGenerated (generateEmailRegex (ArgObject ∅)) "user@example.com.br" = Some true
  /\ testGenerated
       (generateEmailRegex (ArgObject {[ "allowSubdomains"%string := VBool false ]}))
       "user@example.com.br" = Some true.
Proof. repeat split; vm_compute; reflexivity. Qed.

(** ** C3 *)

(** C3, as stated, fails for email: "user@example.com" matches and so
    does its proper extension "user@example.comm". *)
Lemma C3_email_extension_matches :
  exists d g,
    lookupCategory "email" = Some d
    /\ generator d (ArgObject ∅) = Normal g
    /\ test g "user@example.com" = Some true
    /\ test g ("user@example.com" +:+ "m") = Some true.
Proof.
  do 2 eexists. split; [reflexivity|].
  split; [reflexivity|]. split; vm_compute; reflexivity.
Qed.

(** C3 (amended): for every category in the registry and every options
    record, the generated pattern is the body wrapped in [^] and [$], so
    it matches only whole input strings: every match starts at index 0 and
    stops at the end of the input.  For cpf, cep and uuid no proper
    extension of an accepted string, by characters appended or prepended,
    is accepted; for email and ipv4 some accepted string has an accepted
    proper extension. *)
Theorem C3_patterns_anchored key d (o : Options) :
  lookupCategory key = Some d ->
  exists g,
    generator d (ArgObject o) = Normal g
    /\ wholeStringOnly g
    /\ (key <> "email"%string -> key <> "ipv4"%string ->
        forall s e,
          test g s = Some true -> e <> ""%string ->
          test g (s +:+ e) = Some false /\ test g (e +:+ s) = Some false)
    /\ (key = "email"%string \/ key = "ipv4"%string ->
        exists s e,
          e <> ""%string
          /\ test g s = Some true /\ test g (s +:+ e) = Some true).
Proof.
  intros Hin. apply RegexCategories_cases in Hin.
  destruct Hin as [(-> & -> & _)|[(-> & -> & _)|[(-> & -> & _)
                  |[(-> & -> & _)|(-> & -> & _)]]]].
  - rewrite generateEmailRegex_record. eexists. split; [reflexivity|].
    split; [|split].
    + destruct (ToBoolean _);
        (eapply wholeStringOnly_intro; [reflexivity | vm_compute; reflexivity ..]).
    + intros Hne. by destruct Hne.
    + intros _. exists "user@example.com"%string, "m"%string.
      split; [discriminate|].
      destruct (ToBoolean _); split; vm_compute; reflexivity.
  - rewrite generateCPFRegex_record. eexists. split; [reflexivity|].
    split; [|split].
    + destruct (ToBoolean _);
        (eapply wholeStringOnly_intro; [reflexivity | vm_compute; reflexivity ..]).
    + intros _ _ s e Hs He. pose proof (cpf_no_extension o s e) as H.
      rewrite generateCPFRegex_record in H. exact (H Hs He).
    + intros [H|H]; discriminate H.
  - rewrite generateCEPRegex_record. eexists. split; [reflexivity|].
    split; [|split].
    + destruct (ToBoolean _);
        (eapply wholeStringOnly_intro; [reflexivity | vm_compute; reflexivity ..]).
    + intros _ _ s e Hs He. pose proof (cep_no_extension o s e) as H.
      rewrite generateCEPRegex_record in H. exact (H Hs He).
    + intros [H|H]; discriminate H.
  - rewrite generateUUIDRegex_any. eexists. split; [reflexivity|].
    split; [|split].
    + eapply wholeStringOnly_intro; [reflexivity | vm_compute; reflexivity ..].
    + intros _ _ s e Hs He. pose proof (uuid_no_extension (ArgObject o) s e) as H.
      rewrite generateUUIDRegex_any in H. exact (H Hs He).
    + intros [H|H]; discriminate H.
  - rewrite generateIPv4Regex_record. eexists. split; [reflexivity|].
    split; [|split].
    + destruct (ToBoolean _);
        (eapply wholeStringOnly_intro; [reflexivity | vm_compute; reflexivity ..]).
    + intros _ Hne. by destruct Hne.
    + intros _. exists "1.1.1.1"%string, "1"%string.
      split; [discriminate|].
      destruct (ToBoolean _); split; vm_compute; reflexivity.
Qed.

Lemma C3_patterns_anchored_witness :
  exists g,
    generateCEPRegex (ArgObject {[ "allowOptionalSymbols"%string := VBool true ]})
    = Normal g
    /\ wholeStringOnly g
    /\ test g "01310100" = Some true
    /\ test g ("01310100" +:+ "0") = Some false
    /\ test g ("0" +:+ "01310100") = Some false.
Proof.
  destruct (C3_patterns_anchored "cep" _
              {[ "allowOptionalSymbols"%string := VBool true ]} eq_refl)
    as (g & Hg & Hw & Hext & _).
  exists g. split; [exact Hg|]. split; [exact Hw|].
  assert (Hs : test g "01310100" = Some true).
  { vm_compute in Hg. injection Hg as <-. vm_compute. reflexivity. }
  split; [exact Hs|].
  apply Hext; [discriminate | discriminate | exact Hs | discriminate].
Defined.

(** ** C4 *)

(** C4: the default IPv4 pattern accepts "255.255.255.255" and rejects
    "256.0.0.1", and what it accepts are exactly the four dot-separated
    numerals 0 to 255; with [allowCIDR = true] the pattern accepts
    "10.0.0.0/24" and rejects "10.0.0.0/33", and what it accepts are
    exactly those addresses alone or followed by a slash and a prefix
    length 0 to 32. *)
Theorem C4_ipv4_octets_and_cidr :
  testGenerated (generateIPv4Regex ArgUndefined) "255.255.255.255" = Some true
  /\ testGenerated (generateIPv4Regex ArgUndefined) "256.0.0.1" = Some false
  /\ testGenerated
       (generateIPv4Regex (ArgObject {[ "allowCIDR"%string := VBool true ]}))
       "10.0.0.0/24" = Some true
  /\ testGenerated
       (generateIPv4Regex (ArgObject {[ "allowCIDR"%string := VBool true ]}))
       "10.0.0.0/33" = Some false
  /\ (forall s,
        testGenerated (generateIPv4Regex ArgUndefined) s = Some true
        <-> exists a b c d,
              a <= 255 /\ b <= 255 /\ c <= 255 /\ d <= 255
              /\ list_ascii_of_string s = dottedQuad a b c d)
  /\ (forall s,
        testGenerated
          (generateIPv4Regex (ArgObject {[ "allowCIDR"%string := VBool true ]})) s
        = Some true
        <-> exists a b c d,
              a <= 255 /\ b <= 255 /\ c <= 255 /\ d <= 255
              /\ (list_ascii_of_string s = dottedQuad a b c d
                  \/ exists p, p <= 32
                       /\ list_ascii_of_string s
                          = dottedQuad a b c d ++ "/"%char :: decimal p)).
Proof.
  do 4 (split; [vm_compute; reflexivity|]).
  split; [exact ipv4_default_language | exact ipv4_cidr_language].
Qed.

Lemma C4_ipv4_octets_and_cidr_witness :
  testGenerated (generateIPv4Regex ArgUndefined) "192.168.0.1" = Some true.
Proof.
  apply (proj1 (proj2 (proj2 (proj2 (proj2 C4_ipv4_octets_and_cidr)))) "192.168.0.1").
  exists 192, 168, 0, 1. repeat split; try lia.
Defined.

(** ** C5 *)

(** C5: with [allowOptionalSymbols = false] the CPF pattern accepts
    "123.456.789-09" and rejects "12345678909"; with
    [allowOptionalSymbols = true] it accepts both and rejects
    "123-456.789.09". *)
Theorem C5_cpf_examples :
  testGenerated
    (generateCPFRegex (ArgObject {[ "allowOptionalSymbols"%string := VBool false ]}))
    "123.456.789-09" = Some true
  /\ testGenerated
       (generateCPFRegex (ArgObject {[ "allowOptionalSymbols"%string := VBool false ]}))
       "12345678909" = Some false
  /\ testGenerated
       (generateCPFRegex (ArgObject {[ "allowOptionalSymbols"%string := VBool true ]}))
       "123.456.789-09" = Some true
  /\ testGenerated
       (generateCPFRegex (ArgObject {[ "allowOptionalSymbols"%string := VBool true ]}))
       "12345678909" = Some true
  /\ testGenerated
       (generateCPFRegex (ArgObject {[ "allowOptionalSymbols"%string := VBool true ]}))
       "123-456.789.09" = Some false.
Proof. repeat split; vm_compute; reflexivity. Qed.

(** ** C6 *)

Lemma only_4 (c : ascii) :
  charSetMatches true {| invert := false; atoms := [CChar "4"%char] |} c = true ->
  c = "4"%char.
Proof.
  destruct c as [[] [] [] [] [] [] [] []]; vm_compute; intros H;
    (reflexivity || discriminate H).
Qed.

Lemma only_89ab (c : ascii) :
  charSetMatches true
    {| invert := false;
       atoms := [CChar "8"%char; CChar "9"%char; CChar "a"%char; CChar "b"%char] |} c
  = true ->
  In (toLower c) ["8"%char; "9"%char; "a"%char; "b"%char].
Proof.
  destruct c as [[] [] [] [] [] [] [] []]; vm_compute; intros H;
    (discriminate H || tauto).
Qed.

(** C6: the UUID pattern, under its flags, accepts
    "550e8400-e29b-41d4-a716-446655440000" and rejects the same string
    with version nibble 3; every accepted string has 36 characters, the
    version nibble (index 14) is 4 and the variant nibble (index 19) is one
    of 8, 9, a, b, in either case since the flags ignore case. *)
Theorem C6_uuid_version_and_variant :
  testGenerated (generateUUIDRegex ArgUndefined)
    "550e8400-e29b-41d4-a716-446655440000" = Some true
  /\ testGenerated (generateUUIDRegex ArgUndefined)
       "550e8400-e29b-31d4-a716-446655440000" = Some false
  /\ forall arg s,
       testGenerated (generateUUIDRegex arg) s = Some true ->
       String.length s = 36
       /\ String.get 14 s = Some "4"%char
       /\ exists c, String.get 19 s = Some c
                    /\ In (toLower c) ["8"%char; "9"%char; "a"%char; "b"%char].
Proof.
  split; [vm_compute; reflexivity|]. split; [vm_compute; reflexivity|].
  intros arg s H. cbn [generateUUIDRegex testGenerated] in H.
  set (g := {| pattern := _ |}) in H.
  destruct (parsePattern (pattern g)) as [r|] eqn:Hr;
    [|vm_compute in Hr; discriminate].
  assert (Hi : parseFlags (flags g) = Some true) by reflexivity.
  rewrite (test_compiled g r true s Hr Hi) in H. injection H as H.
  vm_compute in Hr. injection Hr as <-.
  apply regExpTest_anchored in H; [|reflexivity ..].
  eapply shape_sound in H; [|vm_compute; reflexivity].
  pose proof (Forall2_length _ _ _ H) as Hlen.
  rewrite length_list_ascii_of_string in Hlen.
  destruct (Forall2_lookup_l _ _ _ 14 _ H eq_refl) as (c4 & H14 & Hc4).
  destruct (Forall2_lookup_l _ _ _ 19 _ H eq_refl) as (c & H19 & Hc).
  rewrite <- get_list_ascii_of_string in H14, H19.
  apply only_4 in Hc4 as ->. apply only_89ab in Hc.
  split; [symmetry; exact Hlen|]. split; [exact H14|]. eauto.
Qed.

Lemma C6_uuid_version_and_variant_witness :
  String.get 14 "550E8400-E29B-41D4-B716-446655440000" = Some "4"%char
  /\ exists c, String.get 19 "550E8400-E29B-41D4-B716-446655440000" = Some c
               /\ In (toLower c) ["8"%char; "9"%char; "a"%char; "b"%char].
Proof.
  refine (proj2 (proj2 (proj2 C6_uuid_version_and_variant)
                   ArgUndefined "550E8400-E29B-41D4-B716-446655440000" _)).
  vm_compute; reflexivity.
Defined.

(** ** C7 *)

(** C7: with [allowOptionalSymbols = true] the CEP pattern accepts
    "01310-100" and "01310100" and rejects "01310 100". *)
Theorem C7_cep_examples :
  testGenerated
    (generateCEPRegex (ArgObject {[ "allowOptionalSymbols"%string := VBool true ]}))
    "01310-100" = Some true
  /\ testGenerated
       (generateCEPRegex (ArgObject {[ "allowOptionalSymbols"%string := VBool true ]}))
       "01310100" = Some true
  /\ testGenerated
       (generateCEPRegex (ArgObject {[ "allowOptionalSymbols"%string := VBool true ]}))
       "01310 100" = Some false.
Proof. repeat split; vm_compute; reflexivity. Qed.

(** ** C8 *)

(** C8: for every category, a call without an options argument does not
    raise and returns exactly what the call with an empty record returns. *)
Theorem C8_no_argument_is_empty_record key d :
  lookupCategory key = Some d ->
  generator d ArgUndefined = generator d (ArgObject ∅)
  /\ exists g, generator d ArgUndefined = Normal g.
Proof.
  intros Hin. apply lookupCategory_In in Hin. simpl in Hin.
  destruct Hin
    as [[= <- <-]|[[= <- <-]|[[= <- <-]|[[= <- <-]|[[= <- <-]|[]]]]]];
    (split; [reflexivity | eexists; reflexivity]).
Qed.

Lemma C8_no_argument_is_empty_record_witness :
  generateIPv4Regex ArgUndefined = generateIPv4Regex (ArgObject ∅)
  /\ exists g, generateIPv4Regex ArgUndefined = Normal g.
Proof. exact (C8_no_argument_is_empty_record "ipv4" _ eq_refl). Defined.

(** ** C9 *)




(** ** C10 *)

(** C10: for email, cpf, cep and ipv4, every string accepted with the
    category's criterion false is accepted with the criterion true. *)
Theorem C10_criterion_relaxes (o : Options) (s : string) :
  (testGenerated
     (generateEmailRegex (ArgObject (<["allowSubdomains"%string := VBool false]> o))) s
   = Some true ->
   testGenerated
     (generateEmailRegex (ArgObject (<["allowSubdomains"%string := VBool true]> o))) s
   = Some true)
  /\ (testGenerated
        (generateCPFRegex (ArgObject (<["allowOptionalSymbols"%string := VBool false]> o))) s
      = Some true ->
      testGenerated
        (generateCPFRegex (ArgObject (<["allowOptionalSymbols"%string := VBool true]> o))) s
      = Some true)
  /\ (testGenerated
        (generateCEPRegex (ArgObject (<["allowOptionalSymbols"%string := VBool false]> o))) s
      = Some true ->
      testGenerated
        (generateCEPRegex (ArgObject (<["allowOptionalSymbols"%string := VBool true]> o))) s
      = Some true)
  /\ (testGenerated
        (generateIPv4Regex (ArgObject (<["allowCIDR"%string := VBool false]> o))) s
      = Some true ->
      testGenerated
        (generateIPv4Regex (ArgObject (<["allowCIDR"%string := VBool true]> o))) s
      = Some true).
Proof.
  rewrite !generateEmailRegex_record, !generateCPFRegex_record,
    !generateCEPRegex_record, !generateIPv4Regex_record, !readProp_insert_eq.
  cbn [ToBoolean testGenerated].
  repeat split; (eapply test_relaxes; vm_compute; reflexivity).
Qed.

Lemma C10_criterion_relaxes_witness :
  testGenerated
    (generateCPFRegex
       (ArgObject (<["allowOptionalSymbols"%string := VBool false]> ∅)))
    "123.456.789-09" = Some true
  /\ testGenerated
       (generateCPFRegex
          (ArgObject (<["allowOptionalSymbols"%string := VBool true]> ∅)))
       "123.456.789-09" = Some true.
Proof.
  split; [vm_compute; reflexivity|].
  apply (proj1 (proj2 (C10_criterion_relaxes ∅ "123.456.789-09"))).
  vm_compute; reflexivity.
Defined.

(** * Further properties of the generators and the registry *)

(** ** Options, errors and the registry *)

(** X1: a generator looks at nothing but the truthiness of its own
    criterion: two options records on which every declared criterion has
    the same truthiness give the same result, whatever else they hold and
    whatever the type of the value (a number, a string, an object). *)
Theorem X1_only_truthiness_matters key d (o o' : Options) :
  lookupCategory key = Some d ->
  (forall k, In k (declaredIds d) -> criterionSet o k = criterionSet o' k) ->
  generator d (ArgObject o) = generator d (ArgObject o').
Proof.
  intros Hin Hsame. apply RegexCategories_cases in Hin.
  destruct Hin as [(_ & -> & Hid)|[(_ & -> & Hid)|[(_ & -> & Hid)
                  |[(_ & -> & Hid)|(_ & -> & Hid)]]]];
    rewrite Hid in Hsame; unfold criterionSet in Hsame.
  - rewrite !generateEmailRegex_record, (Hsame _ (or_introl eq_refl)). done.
  - rewrite !generateCPFRegex_record, (Hsame _ (or_introl eq_refl)). done.
  - rewrite !generateCEPRegex_record, (Hsame _ (or_introl eq_refl)). done.
  - reflexivity.
  - rewrite !generateIPv4Regex_record, (Hsame _ (or_introl eq_refl)). done.
Qed.

Lemma X1_only_truthiness_matters_witness :
  generateIPv4Regex
    (ArgObject (<["allowCIDR"%string := VStr "yes"]> {[ "extra"%string := VNull ]}))
  = generateIPv4Regex (ArgObject {[ "allowCIDR"%string := VNum 1 ]}).
Proof.
  refine (X1_only_truthiness_matters "ipv4" _
            (<["allowCIDR"%string := VStr "yes"]> {[ "extra"%string := VNull ]})
            {[ "allowCIDR"%string := VNum 1 ]} eq_refl _).
  simpl. intros k [<-|[]]. vm_compute. reflexivity.
Defined.

(** X2: called with [null], every generator that declares an [options]
    parameter raises a [TypeError] (the default applies to a missing
    argument only); the UUID generator, which declares none, returns its
    pattern. *)
Theorem X2_null_argument key d :
  lookupCategory key = Some d ->
  (key <> "uuid"%string -> generator d ArgNull = Throw TypeError)
  /\ (key = "uuid"%string -> generator d ArgNull = generator d ArgUndefined).
Proof.
  intros Hin. apply lookupCategory_In in Hin. simpl in Hin.
  destruct Hin
    as [[= <- <-]|[[= <- <-]|[[= <- <-]|[[= <- <-]|[[= <- <-]|[]]]]]];
    split; intros H; try reflexivity; congruence.
Qed.

Lemma X2_null_argument_witness : generateCPFRegex ArgNull = Throw TypeError.
Proof.
  refine (proj1 (X2_null_argument "cpf" _ eq_refl) _). discriminate.
Defined.

(** X3: every criterion the registry declares is one the generator reads:
    switching it between true and false changes the returned pattern. *)
Theorem X3_declared_criteria_are_read key d c (o : Options) :
  lookupCategory key = Some d ->
  In c (criteria d) ->
  generator d (ArgObject (<[id c := VBool true]> o))
  <> generator d (ArgObject (<[id c := VBool false]> o)).
Proof.
  intros Hin Hc. apply lookupCategory_In in Hin. simpl in Hin.
  destruct Hin
    as [[= <- <-]|[[= <- <-]|[[= <- <-]|[[= <- <-]|[[= <- <-]|[]]]]]];
    simpl in Hc; (first [destruct Hc as [<-|[]] | destruct Hc]); simpl.
  - rewrite !generateEmailRegex_record, !readProp_insert_eq. discriminate.
  - rewrite !generateCPFRegex_record, !readProp_insert_eq. discriminate.
  - rewrite !generateCEPRegex_record, !readProp_insert_eq. discriminate.
  - rewrite !generateIPv4Regex_record, !readProp_insert_eq. discriminate.
Qed.

Lemma X3_declared_criteria_are_read_witness :
  generateCEPRegex (ArgObject (<["allowOptionalSymbols"%string := VBool true]> ∅))
  <> generateCEPRegex (ArgObject (<["allowOptionalSymbols"%string := VBool false]> ∅)).
Proof.
  refine (X3_declared_criteria_are_read "cep" _
            {| id := "allowOptionalSymbols"; label := "Permitir símbolos opcionais";
               type := checkbox; defaultValue := VBool true |}
            ∅ eq_refl _).
  left. reflexivity.
Defined.



(** ** What each pattern accepts *)

(** X5: the CEP pattern accepts exactly five digits, a hyphen and three
    digits; when [allowOptionalSymbols] is set it also accepts the eight
    digits without the hyphen, and nothing else in either case. *)
Theorem X5_cep_language (o : Options) (s : string) :
  testGenerated (generateCEPRegex (ArgObject o)) s = Some true
  <-> exists a b,
        allOf isDigit 5 a /\ allOf isDigit 3 b
        /\ (list_ascii_of_string s = a ++ "-"%char :: b
            \/ (criterionSet o "allowOptionalSymbols" = true
                /\ list_ascii_of_string s = a ++ b)).
Proof. exact (cep_language o s). Qed.

Lemma X5_cep_language_witness :
  testGenerated (generateCEPRegex (ArgObject ∅)) "01310-100" = Some true.
Proof.
  apply (proj2 (X5_cep_language ∅ "01310-100")).
  exists (list_ascii_of_string "01310"), (list_ascii_of_string "100").
  split; [|split; [|left; reflexivity]];
    (split; [reflexivity | repeat constructor]).
Defined.

(** X6: the CPF pattern accepts exactly the digit groups 3, 3, 3, 2 written
    [ddd.ddd.ddd-dd]; when [allowOptionalSymbols] is set each of the three
    separators may be left out on its own, so mixed forms are accepted too. *)
Theorem X6_cpf_language (o : Options) (s : string) :
  testGenerated (generateCPFRegex (ArgObject o)) s = Some true
  <-> exists a b c d,
        allOf isDigit 3 a /\ allOf isDigit 3 b /\ allOf isDigit 3 c
        /\ allOf isDigit 2 d
        /\ (list_ascii_of_string s
            = a ++ "."%char :: b ++ "."%char :: c ++ "-"%char :: d
            \/ (criterionSet o "allowOptionalSymbols" = true
                /\ exists s1 s2 s3,
                     (s1 = [] \/ s1 = ["."%char])
                     /\ (s2 = [] \/ s2 = ["."%char])
                     /\ (s3 = [] \/ s3 = ["-"%char])
                     /\ list_ascii_of_string s
                        = a ++ s1 ++ b ++ s2 ++ c ++ s3 ++ d)).
Proof. exact (cpf_language o s). Qed.

Lemma X6_cpf_language_witness :
  testGenerated
    (generateCPFRegex (ArgObject {[ "allowOptionalSymbols"%string := VBool true ]}))
    "123456.789-09" = Some true.
Proof.
  apply (proj2 (X6_cpf_language _ "123456.789-09")).
  exists (list_ascii_of_string "123"), (list_ascii_of_string "456"),
    (list_ascii_of_string "789"), (list_ascii_of_string "09").
  do 4 (split; [split; [reflexivity | repeat constructor]|]).
  right. split; [reflexivity|].
  exists [], ["."%char], ["-"%char]. auto.
Defined.

(** X7: the UUID pattern accepts exactly the strings made of hexadecimal
    groups of 8, 4, 4, 4 and 12 characters joined by hyphens, in either
    case, whose third group starts with 4 and whose fourth group starts
    with one of 8, 9, a, b, A, B; the argument plays no part. *)
Theorem X7_uuid_language (arg : OptionsArg) (s : string) :
  testGenerated (generateUUIDRegex arg) s = Some true
  <-> exists a b c v d e,
        allOf isHexDigit 8 a /\ allOf isHexDigit 4 b /\ allOf isHexDigit 3 c
        /\ isVariantNibble v = true
        /\ allOf isHexDigit 3 d /\ allOf isHexDigit 12 e
        /\ list_ascii_of_string s
           = a ++ "-"%char :: b ++ "-"%char :: "4"%char :: c
               ++ "-"%char :: v :: d ++ "-"%char :: e.
Proof. exact (uuid_language arg s). Qed.

Lemma X7_uuid_language_witness :
  testGenerated (generateUUIDRegex ArgNull) "550E8400-e29b-41D4-B716-446655440000"
  = Some true.
Proof.
  apply (proj2 (X7_uuid_language ArgNull "550E8400-e29b-41D4-B716-446655440000")).
  exists (list_ascii_of_string "550E8400"), (list_ascii_of_string "e29b"),
    (list_ascii_of_string "1D4"), "B"%char, (list_ascii_of_string "716"),
    (list_ascii_of_string "446655440000").
  split; [split; [reflexivity | repeat constructor]|].
  split; [split; [reflexivity | repeat constructor]|].
  split; [split; [reflexivity | repeat constructor]|].
  split; [reflexivity|].
  split; [split; [reflexivity | repeat constructor]|].
  split; [split; [reflexivity | repeat constructor]|].
  reflexivity.
Defined.

(** X8: the options make no difference to the e-mail pattern's language:
    whatever two options records are passed, the two returned patterns
    accept the same strings. *)
Theorem X8_email_options_change_nothing (o o' : Options) (s : string) :
  testGenerated (generateEmailRegex (ArgObject o)) s = Some true
  <-> testGenerated (generateEmailRegex (ArgObject o')) s = Some true.
Proof. by rewrite (email_any_record o), (email_any_record o'). Qed.

Lemma X8_email_options_change_nothing_witness :
  testGenerated
    (generateEmailRegex (ArgObject {[ "allowSubdomains"%string := VBool false ]}))
    "ana@loja.com.br" = Some true.
Proof.
  apply (proj1 (X8_email_options_change_nothing
                  {[ "allowSubdomains"%string := VBool true ]}
                  {[ "allowSubdomains"%string := VBool false ]}
                  "ana@loja.com.br")).
  vm_compute. reflexivity.
Defined.

(** X9: with any options the e-mail pattern accepts exactly
    [local@domain.tld] where [local] is a non-empty run of letters, digits
    and [._%+-], [domain] a non-empty run of letters, digits, dots and
    hyphens, and [tld] 2 to 63 letters; nothing constrains where the dots
    and hyphens stand. *)
Theorem X9_email_language (o : Options) (s : string) :
  testGenerated (generateEmailRegex (ArgObject o)) s = Some true
  <-> exists loc dmn tld,
        loc <> [] /\ Forall (fun c => isLocalChar c = true) loc
        /\ dmn <> [] /\ Forall (fun c => isDomainChar c = true) dmn
        /\ 2 <= length tld <= 63 /\ Forall (fun c => isLetter c = true) tld
        /\ list_ascii_of_string s = loc ++ "@"%char :: dmn ++ "."%char :: tld.
Proof. exact (email_language o s). Qed.

Lemma X9_email_language_witness :
  testGenerated (generateEmailRegex (ArgObject ∅)) "a..b@-.x-.Zz" = Some true.
Proof.
  apply (proj2 (X9_email_language ∅ "a..b@-.x-.Zz")).
  exists (list_ascii_of_string "a..b"), (list_ascii_of_string "-.x-"),
    (list_ascii_of_string "Zz").
  split; [discriminate|]. split; [repeat constructor|].
  split; [discriminate|]. split; [repeat constructor|].
  split; [simpl; lia|]. split; [repeat constructor | reflexivity].
Defined.

(** ** Letter case, lengths and digits *)

(** X10: the e-mail and UUID patterns are returned with the [i] flag, so
    accepting a string does not depend on the case of its ASCII letters:
    two strings that differ only in the case of letters a-z/A-Z are
    accepted or rejected together.  Only ASCII is folded: an accepted
    string holds no character outside ASCII at all. *)
Theorem X10_case_insensitive (o : Options) (arg : OptionsArg) (s s' : string) :
  (sameUpToCase (list_ascii_of_string s) (list_ascii_of_string s') ->
   (testGenerated (generateEmailRegex (ArgObject o)) s = Some true
    <-> testGenerated (generateEmailRegex (ArgObject o)) s' = Some true)
   /\ (testGenerated (generateUUIDRegex arg) s = Some true
       <-> testGenerated (generateUUIDRegex arg) s' = Some true))
  /\ (testGenerated (generateEmailRegex (ArgObject o)) s = Some true
      \/ testGenerated (generateUUIDRegex arg) s = Some true ->
      Forall (fun c => nat_of_ascii c < 128) (list_ascii_of_string s)).
Proof.
  split.
  - intros Hsame. pose proof (sameUpToCase_sym _ _ Hsame) as Hsame'.
    split.
    + rewrite generateEmailRegex_record. cbn [testGenerated].
      destruct (ToBoolean _);
        (split; eapply test_case; first [eassumption | vm_compute; reflexivity]).
    + rewrite generateUUIDRegex_any. cbn [testGenerated].
      split; eapply test_case; first [eassumption | vm_compute; reflexivity].
  - intros [H|H]; [by apply email_ascii in H | by apply uuid_ascii in H].
Qed.

Lemma X10_case_insensitive_witness :
  testGenerated (generateUUIDRegex ArgUndefined)
    "550E8400-E29B-41D4-A716-446655440000" = Some true.
Proof.
  refine (proj1 (proj2 (proj1 (X10_case_insensitive ∅ ArgUndefined
                                 "550e8400-e29b-41d4-a716-446655440000"
                                 "550E8400-E29B-41D4-A716-446655440000") _)) _).
  - unfold sameUpToCase. refine (bool_decide_unpack _ _). vm_compute. exact I.
  - vm_compute. reflexivity.
Defined.

(** X11: the lengths the patterns allow.  An accepted CPF has 11 to 14
    characters and exactly 14 unless [allowOptionalSymbols] is set; an
    accepted CEP has 8 or 9 and exactly 9 unless the option is set; an
    accepted IPv4 address has 7 to 18 characters and at most 15 unless
    [allowCIDR] is set. *)
Theorem X11_length_bounds (o : Options) (s : string) :
  (testGenerated (generateCPFRegex (ArgObject o)) s = Some true ->
   11 <= String.length s <= 14
   /\ (criterionSet o "allowOptionalSymbols" = false -> String.length s = 14))
  /\ (testGenerated (generateCEPRegex (ArgObject o)) s = Some true ->
      8 <= String.length s <= 9
      /\ (criterionSet o "allowOptionalSymbols" = false -> String.length s = 9))
  /\ (testGenerated (generateIPv4Regex (ArgObject o)) s = Some true ->
      7 <= String.length s <= 18
      /\ (criterionSet o "allowCIDR" = false -> String.length s <= 15)).
Proof.
  rewrite <- !length_list_ascii_of_string. split; [|split].
  - intros H. apply cpf_language in H
      as (a & b & c & d & [Ha _] & [Hb _] & [Hc _] & [Hd _] & Hl).
    destruct Hl as [->|(Hset & s1 & s2 & s3 & Hs1 & Hs2 & Hs3 & ->)].
    + repeat (rewrite length_app || rewrite length_cons). lia.
    + rewrite Hset. repeat (rewrite length_app || rewrite length_cons).
      destruct Hs1 as [->| ->], Hs2 as [->| ->], Hs3 as [->| ->];
        simpl; (split; [lia | discriminate]).
  - intros H. apply cep_language in H as (a & b & [Ha _] & [Hb _] & Hl).
    destruct Hl as [->|(Hset & ->)].
    + repeat (rewrite length_app || rewrite length_cons). lia.
    + rewrite Hset. rewrite length_app. split; [lia | discriminate].
  - intros H. apply ipv4_language in H as (a & b & c & d & Ha & Hb & Hc & Hd & Hl).
    pose proof (dottedQuad_length a b c d Ha Hb Hc Hd) as Hq.
    destruct Hl as [->|(Hset & p & Hp & ->)]; [lia|].
    apply decimal_length_32 in Hp. rewrite Hset, length_app, length_cons.
    split; [lia | discriminate].
Qed.

Lemma X11_length_bounds_witness :
  String.length "01310-100" = 9.
Proof.
  refine (proj2 (proj1 (proj2 (X11_length_bounds ∅ "01310-100")) _) _).
  - vm_compute. reflexivity.
  - reflexivity.
Defined.

(** X12: an accepted e-mail address has at least 6 characters, and the
    pattern puts no upper limit on its length: for every [n] some accepted
    address is longer than [n]. *)
Theorem X12_email_lengths (o : Options) :
  (forall s,
     testGenerated (generateEmailRegex (ArgObject o)) s = Some true ->
     6 <= String.length s)
  /\ (forall n, exists s,
        n <= String.length s
        /\ testGenerated (generateEmailRegex (ArgObject o)) s = Some true).
Proof.
  split.
  - intros s H. rewrite <- length_list_ascii_of_string.
    apply email_language in H
      as (loc & dmn & tld & Hn & _ & Hm & _ & Hlen & _ & ->).
    repeat (rewrite length_app || rewrite length_cons).
    destruct loc; [done|]. destruct dmn; [done|]. simpl. lia.
  - intros n.
    exists (string_of_list_ascii
              (replicate n "a"%char ++ list_ascii_of_string "a@b.cd")).
    split.
    + rewrite <- length_list_ascii_of_string, list_ascii_of_string_of_list_ascii.
      rewrite length_app, length_replicate. lia.
    + apply email_language.
      exists (replicate n "a"%char ++ ["a"%char]), ["b"%char],
        (list_ascii_of_string "cd").
      rewrite list_ascii_of_string_of_list_ascii.
      split; [by destruct n|].
      split; [apply Forall_app; split;
              [by apply Forall_replicate | by repeat constructor]|].
      split; [done|]. split; [by repeat constructor|].
      split; [simpl; lia|]. split; [by repeat constructor|].
      by rewrite <- app_assoc.
Qed.

Lemma X12_email_lengths_witness :
  6 <= String.length "a@b.cd".
Proof.
  apply (proj1 (X12_email_lengths ∅) "a@b.cd"). vm_compute. reflexivity.
Defined.

(** X13: whatever separators an accepted CPF carries, it holds exactly 11
    digits and nothing but digits, dots and hyphens; an accepted CEP holds
    exactly 8 digits and nothing but digits and hyphens. *)
Theorem X13_digit_counts (o : Options) (s : string) :
  (testGenerated (generateCPFRegex (ArgObject o)) s = Some true ->
   length (List.filter isDigit (list_ascii_of_string s)) = 11
   /\ Forall (fun c => isDigit c = true \/ c = "."%char \/ c = "-"%char)
        (list_ascii_of_string s))
  /\ (testGenerated (generateCEPRegex (ArgObject o)) s = Some true ->
      length (List.filter isDigit (list_ascii_of_string s)) = 8
      /\ Forall (fun c => isDigit c = true \/ c = "-"%char)
           (list_ascii_of_string s)).
Proof.
  split.
  - intros H. apply cpf_language in H
      as (a & b & c & d & [Ha Da] & [Hb Db] & [Hc Dc] & [Hd Dd] & Hl).
    assert (exists s1 s2 s3,
               (s1 = [] \/ s1 = ["."%char]) /\ (s2 = [] \/ s2 = ["."%char])
               /\ (s3 = [] \/ s3 = ["-"%char])
               /\ list_ascii_of_string s = a ++ s1 ++ b ++ s2 ++ c ++ s3 ++ d)
      as (s1 & s2 & s3 & Hs1 & Hs2 & Hs3 & ->).
    { destruct Hl as [->|(_ & s1 & s2 & s3 & H)]; [|by exists s1, s2, s3].
      exists ["."%char], ["."%char], ["-"%char]. auto. }
    split.
    + rewrite !List.filter_app.
      rewrite (filter_digits_all a), (filter_digits_all b),
        (filter_digits_all c), (filter_digits_all d) by done.
      rewrite (filter_digits_separator "."%char s1),
        (filter_digits_separator "."%char s2),
        (filter_digits_separator "-"%char s3) by done.
      rewrite !length_app. simpl. lia.
    + repeat (apply Forall_app; split);
        try (eapply digits_or_separator; [|eassumption]; tauto).
      * destruct Hs1 as [->| ->]; repeat constructor; tauto.
      * destruct Hs2 as [->| ->]; repeat constructor; tauto.
      * destruct Hs3 as [->| ->]; repeat constructor; tauto.
  - intros H. apply cep_language in H as (a & b & [Ha Da] & [Hb Db] & Hl).
    assert (exists s1,
               (s1 = [] \/ s1 = ["-"%char])
               /\ list_ascii_of_string s = a ++ s1 ++ b)
      as (s1 & Hs1 & ->).
    { destruct Hl as [->|(_ & ->)]; [exists ["-"%char] | exists []]; auto. }
    split.
    + rewrite !List.filter_app.
      rewrite (filter_digits_all a), (filter_digits_all b) by done.
      rewrite (filter_digits_separator "-"%char s1) by done.
      rewrite !length_app. simpl. lia.
    + repeat (apply Forall_app; split);
        try (eapply digits_or_separator; [|eassumption]; tauto).
      destruct Hs1 as [->| ->]; repeat constructor; tauto.
Qed.

Lemma X13_digit_counts_witness :
  length (List.filter isDigit (list_ascii_of_string "123.456789-09")) = 11.
Proof.
  refine (proj1 (proj1 (X13_digit_counts
                          {[ "allowOptionalSymbols"%string := VBool true ]}
                          "123.456789-09") _)).
  vm_compute. reflexivity.
Defined.
